(** * hasura-om: the [Hasura] root object of [src/orm/hasura.js]

    A shallow embedding of the document composer ([buildQuery],
    [buildMutation]), of the three entry points ([query], [mutate],
    [subscribe]) and of the table registry ([table], [createTable]),
    followed by the properties of the specification that concern them.

    The file is organised as follows:
    - a small model of the JavaScript values the code manipulates
      (ordered objects, property reads, truthiness, [split], [join]);
    - completions (normal result or thrown value) and a state monad
      recording the calls made to the two transports;
    - the [Table] catalog;
    - the methods of [Hasura], one definition per method;
    - the vocabulary of the statements and stand-in collaborators for
      the examples;
    - lemmas, theorems, and the theorems applied to the examples.

    The classes [Table], [Gql], [WsGql] and the helper [objectFromPath]
    live in other files of the repository; the per-table builders and
    the transports are parameters of the development.  The introspection
    passes of [init] are not covered. *)

From Stdlib Require Import ZArith NArith Ascii DecimalString.
From stdpp Require Import base option list strings gmap.

Open Scope string_scope.
Open Scope list_scope.

(* ===================================================================== *)
(** ** JavaScript objects as ordered property lists *)
(* ===================================================================== *)

(** An ordinary object is represented by its own enumerable string-keyed
    properties, listed in the order in which [Object.keys], [Object.values],
    [Object.entries] and object spread enumerate them: array-index keys
    first, in ascending numeric order, then every other key in the order
    of creation.  Members inherited from [Object.prototype] are outside
    the model. *)
Definition Obj (A : Type) : Type := list (string * A).

Definition Object_keys {A} (o : Obj A) : list string := o.*1.
Definition Object_values {A} (o : Obj A) : list A := o.*2.
Definition Object_entries {A} (o : Obj A) : list (string * A) := o.

(** [o[k]] on the own properties: [None] stands for "no such property". *)
Fixpoint obj_get {A} (o : Obj A) (k : string) : option A :=
  match o with
  | [] => None
  | (k', v) :: o' => if String.eqb k' k then Some v else obj_get o' k
  end.

Definition digit_of (a : ascii) : option N :=
  let n := N_of_ascii a in
  if (48 <=? n)%N && (n <=? 57)%N then Some (n - 48)%N else None.

Fixpoint digits_value (s : string) (acc : N) : option N :=
  match s with
  | EmptyString => Some acc
  | String a s' =>
      match digit_of a with
      | Some d => digits_value s' (10 * acc + d)%N
      | None => None
      end
  end.

(** A property key is an array index when it is the canonical decimal
    spelling of an integer in [0, 2^32 - 2]. *)
Definition array_index (k : string) : option N :=
  match k with
  | EmptyString => None
  | String "0" EmptyString => Some 0%N
  | String "0" _ => None
  | _ =>
      match digits_value k 0 with
      | Some n => if (n <? 4294967295)%N then Some n else None
      | None => None
      end
  end.

(** Position of a new array-index key [k] (of value [n]): after the
    smaller array indices, before everything else. *)
Fixpoint obj_add_index {A} (n : N) (k : string) (v : A) (o : Obj A) : Obj A :=
  match o with
  | [] => [(k, v)]
  | (k', v') :: o' =>
      match array_index k' with
      | Some n' =>
          if (n' <? n)%N then (k', v') :: obj_add_index n k v o'
          else (k, v) :: o
      | None => (k, v) :: o
      end
  end.

(** Overwrite the value of an existing key, keeping its position. *)
Fixpoint obj_replace {A} (k : string) (v : A) (o : Obj A) : Obj A :=
  match o with
  | [] => []
  | (k', v') :: o' =>
      if String.eqb k' k then (k', v) :: o' else (k', v') :: obj_replace k v o'
  end.

(** The assignment [o[k] = v]. *)
Definition obj_set {A} (k : string) (v : A) (o : Obj A) : Obj A :=
  match obj_get o k with
  | Some _ => obj_replace k v o
  | None =>
      match array_index k with
      | Some n => obj_add_index n k v o
      | None => o ++ [(k, v)]
      end
  end.

(** [Object.assign(target, source)]: every own property of [source] is
    assigned to [target], in the enumeration order of [source]. *)
Definition Object_assign {A} (target source : Obj A) : Obj A :=
  foldl (fun t kv => obj_set kv.1 kv.2 t) target source.

(* ===================================================================== *)
(** ** JavaScript values *)
(* ===================================================================== *)

(** The values that flow through [hasura.js]: JSON data (numbers are
    restricted to integers), [undefined], the [Error] objects the code
    creates or that the runtime raises, and opaque function values (the
    subscriber's callback, the unsubscribe handle). *)
#[warnings="-register-all"] Inductive JsVal : Type :=
| JUndefined
| JNull
| JBool (b : bool)
| JNum (n : Z)
| JStr (s : string)
| JArr (l : list JsVal)
| JObj (o : list (string * JsVal))
| JError (message : string)
| JTypeError
| JFun (id : nat).

(** [if (v)] *)
Definition truthy (v : JsVal) : bool :=
  match v with
  | JUndefined | JNull => false
  | JBool b => b
  | JNum n => negb (n =? 0)%Z
  | JStr s => negb (String.eqb s "")
  | _ => true
  end.

(** A statement either completes normally or throws a value. *)
Inductive Completion (A : Type) : Type :=
| Normal (a : A)
| Throw (e : JsVal).
Arguments Normal {A} a.
Arguments Throw {A} e.

#[global] Instance Completion_ret : MRet Completion := @Normal.
#[global] Instance Completion_bind : MBind Completion := fun A B f c =>
  match c with
  | Normal a => f a
  | Throw e => Throw e
  end.

Definition string_of_nat (n : nat) : string :=
  NilEmpty.string_of_uint (Nat.to_uint n).

Fixpoint chars (s : string) : list string :=
  match s with
  | EmptyString => []
  | String a s' => String a EmptyString :: chars s'
  end.

(** The own enumerable properties copied by an object spread [{...v}]:
    those of an object, the elements of an array, the characters of a
    string, nothing for the other values. *)
Definition own_props (v : JsVal) : Obj JsVal :=
  match v with
  | JObj o => o
  | JArr l => imap (fun i x => (string_of_nat i, x)) l
  | JStr s => imap (fun i c => (string_of_nat i, JStr c)) (chars s)
  | _ => []
  end.

(** The property read [v[k]].  Reading a property of [undefined] or
    [null] throws a [TypeError]; a missing property reads [undefined].
    Strings are taken to be ASCII. *)
Definition js_get (v : JsVal) (k : string) : Completion JsVal :=
  match v with
  | JUndefined | JNull => Throw JTypeError
  | JObj o => Normal (default JUndefined (obj_get o k))
  | JArr l =>
      if String.eqb k "length" then Normal (JNum (Z.of_nat (length l)))
      else match array_index k with
           | Some n => Normal (default JUndefined (l !! N.to_nat n))
           | None => Normal JUndefined
           end
  | JStr s =>
      if String.eqb k "length" then Normal (JNum (Z.of_nat (String.length s)))
      else match array_index k with
           | Some n => Normal (default JUndefined (JStr <$> chars s !! N.to_nat n))
           | None => Normal JUndefined
           end
  | JError m => Normal (if String.eqb k "message" then JStr m else JUndefined)
  | _ => Normal JUndefined
  end.

(** [s.split(sep)] for a one-character separator. *)
Fixpoint split (sep : ascii) (s : string) : list string :=
  match s with
  | EmptyString => [EmptyString]
  | String a s' =>
      if Ascii.eqb a sep then EmptyString :: split sep s'
      else match split sep s' with
           | seg :: segs => String a seg :: segs
           | [] => [String a EmptyString]
           end
  end.

(** [l.join(sep)] on an array of strings. *)
Definition join (sep : string) (l : list string) : string := String.concat sep l.

(** [l.forEach(f)] where the callback updates the variables [s] it
    closes over and may throw. *)
Fixpoint forEach {A S} (f : S -> A -> Completion S) (l : list A) (s : S)
  : Completion S :=
  match l with
  | [] => Normal s
  | x :: l' =>
      match f s x with
      | Normal s' => forEach f l' s'
      | Throw e => Throw e
      end
  end.

(* ===================================================================== *)
(** ** The transports and the effects of a call *)
(* ===================================================================== *)

(** The argument of [$gql.run] and of [$ws.run]. *)
Record GqlRequest := { gql_query : string; gql_variables : Obj JsVal }.

Record WsRequest := {
  ws_query : string;
  ws_variables : Obj JsVal;
  ws_callback : JsVal;
  ws_flatOne : JsVal          (* settings.flatOne *)
}.

(** What a method of [Hasura] can do to the outside: call one of the two
    transports.  The world records these calls, oldest first. *)
Record World := { gql_calls : list GqlRequest; ws_calls : list WsRequest }.

Definition M (A : Type) : Type := World -> Completion A * World.

#[global] Instance M_ret : MRet M := fun A a w => (Normal a, w).
#[global] Instance M_bind : MBind M := fun A B f m w =>
  match m w with
  | (Normal a, w') => f a w'
  | (Throw e, w') => (Throw e, w')
  end.

Definition lift {A} (c : Completion A) : M A := fun w => (c, w).

(* ===================================================================== *)
(** ** The catalog *)
(* ===================================================================== *)

(** Modelled from the spec: the [Field] record of section 3 (DATA
    MODEL); the class [Table] of [src/orm/table.js], which owns the
    fields, is not part of the sources. *)
Record Field := { field_name : string; logicalType : string; nativeType : string }.

(** Modelled from the spec: the [Table] record of section 3 (DATA MODEL),
    for the class [Table] of [src/orm/table.js], which is not part of the
    sources: a name, a type, the fields by column name and the
    primary-key columns in order. *)
Record Table := {
  table_name : string;
  table_type : string;
  fields : gmap string Field;
  primaryKey : list string
}.

(** Modelled from the spec: the constructor [new Table({ name, type })]
    of the missing class.  According to section 3 a table is created from
    a row of the tables pass, and "fields and primary-key entries [are]
    added incrementally" afterwards: a new table has none. *)
Definition new_Table (name type : string) : Table :=
  {| table_name := name; table_type := type; fields := ∅; primaryKey := [] |}.

(** What the composer reads of one per-table build:
    [built.query.name], [built.query.variables], [built.query.fields],
    [built.query.fragment.fragmentName], [built.query.fragment.fragment],
    [built.query.flatSetting] (mutations only) and [built.variables]. *)
Record Built := {
  built_name : string;
  built_query_variables : list string;
  built_fields : string;
  built_fragmentName : string;
  built_fragment : string;
  built_flatSetting : Obj string;
  built_variables : Obj JsVal
}.

(** The state of [this] that the methods below read or write. *)
Record Hasura := { tables : gmap string Table; INITIATED : bool }.

(** The local variables of [buildQuery] and [buildMutation]
    ([queryFlatSetting] exists in [buildMutation] only). *)
Record Composer := {
  queryName : list string;
  queryVariables : list string;
  queryFields : list string;
  queryFragments : Obj string;
  queryFlatSetting : list (Obj string);
  variables : Obj JsVal
}.

Definition composer_init : Composer :=
  {| queryName := []; queryVariables := []; queryFields := [];
     queryFragments := []; queryFlatSetting := []; variables := [] |}.

(** Body of the [forEach] of [buildQuery], after the per-table build. *)
Definition push_built (c : Composer) (built : Built) : Composer :=
  {| queryName := queryName c ++ [built_name built];
     queryVariables := queryVariables c ++ built_query_variables built;
     queryFields := queryFields c ++ [built_fields built];
     queryFragments :=
       obj_set (built_fragmentName built) (built_fragment built) (queryFragments c);
     queryFlatSetting := queryFlatSetting c;
     variables :=
       Object_assign (Object_assign [] (variables c)) (built_variables built) |}.

(** Body of the inner [forEach] of [buildMutation]. *)
Definition push_mutation_built (c : Composer) (built : Built) : Composer :=
  {| queryName := queryName c ++ [built_name built];
     queryVariables := queryVariables c ++ built_query_variables built;
     queryFields := queryFields c ++ [built_fields built];
     queryFragments :=
       obj_set (built_fragmentName built) (built_fragment built) (queryFragments c);
     queryFlatSetting := queryFlatSetting c ++ [built_flatSetting built];
     variables :=
       Object_assign (Object_assign [] (variables c)) (built_variables built) |}.

Definition nl : string := String (ascii_of_nat 10) EmptyString.
Definition indent8 : string := "        ".
Definition indent12 : string := "            ".
Definition indent16 : string := "                ".

(** The template literal of [buildQuery]. *)
Definition query_document (queryType : string) (c : Composer) : string :=
  nl +:+ indent12 +:+ join nl (Object_values (queryFragments c)) +:+
  nl +:+ indent12 +:+ queryType +:+ " " +:+ join "_" (queryName c) +:+ " " +:+
    (if negb (length (queryVariables c) =? 0)%nat
     then "(" +:+ join ", " (queryVariables c) +:+ ")" else "") +:+ " {" +:+
  nl +:+ indent16 +:+ join nl (queryFields c) +:+
  nl +:+ indent12 +:+ "}" +:+
  nl +:+ indent8.

(** The template literal of [buildMutation]. *)
Definition mutation_document (c : Composer) : string :=
  nl +:+ indent12 +:+ join nl (Object_values (queryFragments c)) +:+
  nl +:+ indent12 +:+ "mutation " +:+ join "_" (queryName c) +:+
    " (" +:+ join ", " (queryVariables c) +:+ ") {" +:+
  nl +:+ indent16 +:+ join nl (queryFields c) +:+
  nl +:+ indent12 +:+ "}" +:+
  nl +:+ indent8.

(** The object literal [{ ...params[tableName], k1, k2 }]. *)
Definition table_args (params : Obj JsVal) (tableName : string)
    (extra : Obj JsVal) : Obj JsVal :=
  Object_assign
    (Object_assign [] (own_props (default JUndefined (obj_get params tableName))))
    extra.

(** The destructuring default [{ flatOne = true } = {}]; [None] is an
    omitted options argument. *)
Definition opt_flatOne (opts : option (Obj JsVal)) : JsVal :=
  match opts with
  | None => JBool true
  | Some o =>
      match obj_get o "flatOne" with
      | None | Some JUndefined => JBool true
      | Some v => v
      end
  end.

(** [keys[0]] used as a property key. *)
Definition first_key (keys : list string) : string := default "undefined" (keys !! 0).

(** [hasura_path.split('.').reduce((o, i) => o[i], response)] *)
Definition walk (response : JsVal) (hasura_path : string) : Completion JsVal :=
  forEach js_get (split "." hasura_path) response.

(** Modelled from the spec: [__.objectFromPath] of [src/utils/helpers.js]
    is not part of the sources.  Section 4.5 says that the resolved value
    is written into the result object at the dot-segments of the caller
    path, "creating intermediate nested containers as needed": an
    intermediate segment that does not hold an object receives a new one. *)
Fixpoint set_path (segs : list string) (value : JsVal) (o : Obj JsVal) : Obj JsVal :=
  match segs with
  | [] => o
  | [k] => obj_set k value o
  | k :: rest =>
      let child := match obj_get o k with Some (JObj c) => c | _ => [] end in
      obj_set k (JObj (set_path rest value child)) o
  end.

(** Modelled from the spec: [__.objectFromPath(obj, path, value)], with
    the path given as a dot-separated string.  Values are immutable
    trees: writing into the result object leaves the response alone. *)
Definition objectFromPath (obj : Obj JsVal) (path : string) (value : JsVal) : Obj JsVal :=
  set_path (split "." path) value obj.

(** The world after one more request to [$gql.run], to [$ws.run]. *)
Definition gql_sent (req : GqlRequest) (w : World) : World :=
  {| gql_calls := gql_calls w ++ [req]; ws_calls := ws_calls w |}.

Definition ws_sent (req : WsRequest) (w : World) : World :=
  {| gql_calls := gql_calls w; ws_calls := ws_calls w ++ [req] |}.

Section Hasura.

(** The collaborators that are not part of the sources: the per-table
    builders of [Table] and the two transports.  A builder receives the
    table and the argument object and returns its build(s) or throws; a
    transport answers a request knowing the requests it was sent before.
    [$gql.run] answers with the pair [[err, response]]. *)
Variable Table_buildQuery : Table -> Obj JsVal -> Completion Built.
Variable Table_buildMutation : Table -> Obj JsVal -> Completion (list Built).
Variable gql : list GqlRequest -> GqlRequest -> Completion (JsVal * JsVal).
Variable ws : list WsRequest -> WsRequest -> Completion JsVal.

(** [await this.$gql.run(req)] and [this.$ws.run(req)]: the transport
    answers and the call is recorded. *)
Definition gql_run (req : GqlRequest) : M (JsVal * JsVal) := fun w =>
  (gql (gql_calls w) req, gql_sent req w).

Definition ws_run (req : WsRequest) : M JsVal := fun w =>
  (ws (ws_calls w) req, ws_sent req w).

(** [table(name)], lines 96-100. *)
Definition table (this : Hasura) (name : string) : Completion Table :=
  match tables this !! name with
  | None => Throw (JError ("table " +:+ name +:+ " not found"))
  | Some t => Normal t
  end.

(** [createTable({ name, type })], lines 102-104: the assignment
    [this.tables[name] = new Table({ name, type })]. *)
Definition createTable (name type : string) (this : Hasura) : Hasura :=
  {| tables := <[name := new_Table name type]> (tables this);
     INITIATED := INITIATED this |}.

(** [this.table(tableName).buildQuery({ ...params[tableName], tableName, queryType })] *)
Definition table_buildQuery (this : Hasura) (params : Obj JsVal) (queryType : string)
    (tableName : string) : Completion Built :=
  t ← table this tableName;
  Table_buildQuery t
    (table_args params tableName
       [("tableName", JStr tableName); ("queryType", JStr queryType)]).

(** Body of [tables.forEach] in [buildQuery], lines 149-161. *)
Definition buildQuery_each (this : Hasura) (params : Obj JsVal) (queryType : string)
    (c : Composer) (tableName : string) : Completion Composer :=
  built ← table_buildQuery this params queryType tableName;
  mret (push_built c built).

(** [buildQuery(params, queryType = 'query')], lines 139-171; the callers
    always give [queryType]. *)
Definition buildQuery (this : Hasura) (params : Obj JsVal) (queryType : string)
  : Completion (string * Obj JsVal) :=
  c ← forEach (buildQuery_each this params queryType) (Object_keys params) composer_init;
  mret (query_document queryType c, variables c).

(** [async query(params, { flatOne = true } = {})], lines 120-137.  The
    result is the array that the call resolves to; a thrown value is the
    reason of its rejection. *)
Definition query (this : Hasura) (params : Obj JsVal) (opts : option (Obj JsVal))
  : M JsVal :=
  let flatOne := opt_flatOne opts in
  match buildQuery this params "query" with
  | Throw err => mret (JArr [err])
  | Normal (query, variables) =>
      '(err, response) ← gql_run {| gql_query := query; gql_variables := variables |};
      if truthy err then mret (JArr [err])
      else if (length (Object_keys params) =? 1)%nat && truthy flatOne
      then v ← lift (js_get response (first_key (Object_keys params)));
           mret (JArr [JNull; v])
      else mret (JArr [JNull; response])
  end.

(** [this.tables[tableName].buildMutation({ ...params[tableName], tableName })]:
    the table is read without going through [table], so that an unknown
    name makes the method call throw a [TypeError]. *)
Definition table_buildMutation (this : Hasura) (params : Obj JsVal)
    (tableName : string) : Completion (list Built) :=
  t ← match tables this !! tableName with
      | Some t => Normal t
      | None => Throw JTypeError
      end;
  Table_buildMutation t (table_args params tableName [("tableName", JStr tableName)]).

(** Body of [tables.forEach] in [buildMutation], lines 242-256. *)
Definition buildMutation_each (this : Hasura) (params : Obj JsVal)
    (c : Composer) (tableName : string) : Completion Composer :=
  builts ← table_buildMutation this params tableName;
  mret (foldl push_mutation_built c builts).

(** [buildMutation(params)], lines 231-266. *)
Definition buildMutation (this : Hasura) (params : Obj JsVal)
  : Completion (string * Obj JsVal * list (Obj string)) :=
  c ← forEach (buildMutation_each this params) (Object_keys params) composer_init;
  mret (mutation_document c, variables c, queryFlatSetting c).

(** Body of [flatSettings.forEach] in [mutate]; [Object.entries(flat)[0]]
    is [undefined] for an empty setting, and reading [flat[1]] then throws. *)
Definition remap_each (response : JsVal) (toReturn : Obj JsVal) (flat : Obj string)
  : Completion (Obj JsVal) :=
  match Object_entries flat !! 0 with
  | None => Throw JTypeError
  | Some (request_path, hasura_path) =>
      value ← walk response hasura_path;
      mret (objectFromPath toReturn request_path value)
  end.

(** [async mutate(params)], lines 199-229. *)
Definition mutate (this : Hasura) (params : Obj JsVal) : M JsVal :=
  match buildMutation this params with
  | Throw err => mret (JArr [err])
  | Normal (query, variables, flatSettings) =>
      '(err, response) ← gql_run {| gql_query := query; gql_variables := variables |};
      if truthy err then mret (JArr [err])
      else
        toReturn ← lift (forEach (remap_each response) flatSettings []);
        mret (JArr [JNull; JObj toReturn])
  end.

(** [subscribe(params, callback, { flatOne = true } = {})], lines 268-285. *)
Definition subscribe (this : Hasura) (params : Obj JsVal) (callback : JsVal)
    (opts : option (Obj JsVal)) : M JsVal :=
  let flatOne := opt_flatOne opts in
  match buildQuery this params "subscription" with
  | Throw err => mret (JArr [err])
  | Normal (query, variables) =>
      ws_run {| ws_query := query; ws_variables := variables;
                ws_callback := callback;
                ws_flatOne :=
                  if (length (Object_keys params) =? 1)%nat && truthy flatOne
                  then JStr (first_key (Object_keys params))
                  else JBool false |}
  end.

(** The per-table builds of one call, in the order of the loop: [builds]
    are the values returned for the keys of [params], one after the other. *)
Definition query_builds (this : Hasura) (params : Obj JsVal) (queryType : string)
    (builds : list Built) : Prop :=
  Forall2 (fun tableName built =>
             table_buildQuery this params queryType tableName = Normal built)
          (Object_keys params) builds.

Definition mutation_builds (this : Hasura) (params : Obj JsVal)
    (builtss : list (list Built)) : Prop :=
  Forall2 (fun tableName builts =>
             table_buildMutation this params tableName = Normal builts)
          (Object_keys params) builtss.

End Hasura.

(** The composer state after the builds [builds] have been pushed. *)
Definition composed (builds : list Built) : Composer :=
  foldl push_built composer_init builds.

Definition composed_mutation (builds : list Built) : Composer :=
  foldl push_mutation_built composer_init builds.

(* ===================================================================== *)
(** ** Vocabulary of the statements *)
(* ===================================================================== *)





(** The value found in [o] by following [segs] through nested objects. *)
Fixpoint path_lookup (segs : list string) (o : Obj JsVal) : option JsVal :=
  match segs with
  | [] => None
  | [k] => obj_get o k
  | k :: rest =>
      match obj_get o k with
      | Some (JObj c) => path_lookup rest c
      | _ => None
      end
  end.

(** The writes of the remapping loop: for each flat setting, the caller
    path of its first entry and the value found in [response] at the
    endpoint path of that entry. *)
Definition remap_writes (response : JsVal) (flatSettings : list (Obj string))
    (writes : list (string * JsVal)) : Prop :=
  Forall2 (fun flat write =>
             exists hasura_path,
               Object_entries flat !! 0 = Some (write.1, hasura_path) /\
               walk response hasura_path = Normal write.2)
          flatSettings writes.

(** The result object after the writes. *)
Definition remapped (writes : list (string * JsVal)) : Obj JsVal :=
  foldl (fun toReturn write => objectFromPath toReturn write.1 write.2) [] writes.


(* ===================================================================== *)
(** ** Stand-in collaborators for the examples *)
(* ===================================================================== *)

(** The examples need concrete builders and transports.  These follow
    section 4.2 of the specification; nothing below the examples depends
    on them. *)
Module Sample.

(** The fragment of a table is named after the table and an optional
    discriminator, the [fragment] argument, which defaults to [base]. *)
Definition fragment_name (tableName : string) (args : Obj JsVal) : string :=
  match obj_get args "fragment" with
  | Some (JStr discriminator) => discriminator
  | _ => "base"
  end +:+ "_" +:+ tableName +:+ "_fragment".

(** The selection lists the requested [fields], [id] by default. *)
Definition selection (args : Obj JsVal) : string :=
  match obj_get args "fields" with
  | Some (JArr l) =>
      join " " (omap (fun v => match v with JStr s => Some s | _ => None end) l)
  | _ => "id"
  end.

Definition fragment_text (tableName : string) (args : Obj JsVal) : string :=
  "fragment " +:+ fragment_name tableName args +:+ " on " +:+ tableName +:+
  " { " +:+ selection args +:+ " }".

(** A query build with an optional [limit] argument, bound to the
    variable [variable]. *)
Definition limit_build (variable : string) (t : Table) (args : Obj JsVal) : Built :=
  let tableName := table_name t in
  let limit := obj_get args "limit" in
  {| built_name := tableName;
     built_query_variables :=
       match limit with Some _ => ["$" +:+ variable +:+ ": Int"] | None => [] end;
     built_fields :=
       tableName +:+
       match limit with Some _ => " (limit: $" +:+ variable +:+ ")" | None => "" end
       +:+ " { ..." +:+ fragment_name tableName args +:+ " }";
     built_fragmentName := fragment_name tableName args;
     built_fragment := fragment_text tableName args;
     built_flatSetting := [];
     built_variables :=
       match limit with Some v => [(variable, v)] | None => [] end |}.

(** A query builder whose variables are prefixed with the table name. *)
Definition table_builder (t : Table) (args : Obj JsVal) : Completion Built :=
  Normal (limit_build (table_name t +:+ "_limit") t args).


(** The build of one action ([insert], [update] or [delete]) of a table:
    the root field is [<action>_<table>], its result is selected under
    [returning], and the flat setting sends it back to [<table>.<action>]. *)
Definition action_build (tableName action : string) (spec : JsVal) : Built :=
  let root := action +:+ "_" +:+ tableName in
  let args := own_props spec in
  {| built_name := root;
     built_query_variables :=
       ["$" +:+ root +:+ ": " +:+ tableName +:+ "_" +:+ action +:+ "_input"];
     built_fields :=
       root +:+ " (args: $" +:+ root +:+ ") { returning { ..." +:+
       fragment_name tableName args +:+ " } }";
     built_fragmentName := fragment_name tableName args;
     built_fragment := fragment_text tableName args;
     built_flatSetting := [(tableName +:+ "." +:+ action, root +:+ ".returning")];
     built_variables := [(root, spec)] |}.

(** A mutation builder: one build per action present in the arguments. *)
Definition mutation_builder (t : Table) (args : Obj JsVal) : Completion (list Built) :=
  let tableName := table_name t in
  Normal
    (omap (fun action => action_build tableName action <$> obj_get args action)
          ["insert"; "update"; "delete"]).

(** A transport that answers every request with [[null, response]]. *)
Definition transport (response : JsVal) (_ : list GqlRequest) (_ : GqlRequest)
  : Completion (JsVal * JsVal) := Normal (JNull, response).

(** A live transport that returns the handle [JFun 0]. *)
Definition live_transport (_ : list WsRequest) (_ : WsRequest) : Completion JsVal :=
  Normal (JFun 0).

Definition catalog : Hasura :=
  {| tables := <["user" := new_Table "user" "BASE TABLE"]>
                 (<["users" := new_Table "users" "BASE TABLE"]>
                    (<["posts" := new_Table "posts" "BASE TABLE"]> ∅));
     INITIATED := true |}.

Definition world0 : World := {| gql_calls := []; ws_calls := [] |}.

(** Requests and responses of the examples. *)
Definition one_table : Obj JsVal := [("users", JObj [("limit", JNum 5)])].


Definition no_arguments : Obj JsVal := [("users", JObj []); ("posts", JObj [])].

Definition ghost : Obj JsVal := [("ghost", JObj [("fields", JArr [JStr "id"])])].



Definition insert_user : Obj JsVal :=
  [("user", JObj [("insert", JObj [("objects", JArr [JObj [("name", JStr "ann")]])])])].

Definition users_response : JsVal :=
  JObj [("users", JArr [JObj [("id", JNum 1)]])].

Definition insert_response : JsVal :=
  JObj [("insert_user", JObj [("returning", JArr [JObj [("id", JNum 1)]])])].

(** A response whose [insert_user] has no [returning], and one that has
    no [insert_user] at all. *)
Definition no_returning : JsVal := JObj [("insert_user", JObj [])].
Definition no_insert_user : JsVal := JObj [].

(** The builds that a builder returns for the tables of [params]. *)
Definition builds_of (builder : Table -> Obj JsVal -> Completion Built)
    (params : Obj JsVal) (queryType : string) : list Built :=
  omap (fun tableName =>
          match table_buildQuery builder catalog params queryType tableName with
          | Normal built => Some built
          | Throw _ => None
          end)
       (Object_keys params).


Definition mutation_builds_of (params : Obj JsVal) : list (list Built) :=
  omap (fun tableName =>
          match table_buildMutation mutation_builder catalog params tableName with
          | Normal builts => Some builts
          | Throw _ => None
          end)
       (Object_keys params).

(** The catalog after the three introspection passes of the round-trip
    example of section 8: table [user], field [id], primary key [id]. *)
Definition user_table : Table :=
  {| table_name := "user"; table_type := "BASE TABLE";
     fields := {[ "id" := {| field_name := "id"; logicalType := "integer";
                              nativeType := "int4" |} ]};
     primaryKey := ["id"] |}.

Definition introspected : Hasura :=
  {| tables := {[ "user" := user_table ]}; INITIATED := true |}.

End Sample.

(* ===================================================================== *)
(** ** The constructor *)
(* ===================================================================== *)

Fixpoint starts_with (pattern s : string) : bool :=
  match pattern with
  | EmptyString => true
  | String a pattern' =>
      match s with
      | EmptyString => false
      | String b s' => Ascii.eqb a b && starts_with pattern' s'
      end
  end.

Fixpoint string_drop (n : nat) (s : string) : string :=
  match n, s with
  | S n', String _ s' => string_drop n' s'
  | _, _ => s
  end.

(** [s.replace(pattern, replacement)] for a string pattern: the first
    occurrence of [pattern] is replaced.  The replacement is inserted as
    it is, which is what JavaScript does when it holds no [$]. *)
Fixpoint String_replace (pattern replacement s : string) : string :=
  if starts_with pattern s
  then replacement +:+ string_drop (String.length pattern) s
  else match s with
       | EmptyString => EmptyString
       | String a s' => String a (String_replace pattern replacement s')
       end.

(** [pattern] occurs somewhere in [s]. *)
Fixpoint occurs (pattern s : string) : bool :=
  starts_with pattern s ||
  match s with
  | EmptyString => false
  | String _ s' => occurs pattern s'
  end.

(** Lines 9-14. *)
Definition defaultParams : Obj JsVal :=
  [("graphqlUrl", JNull); ("queryUrl", JNull); ("wsUrl", JNull); ("adminSecret", JNull)].

(** [this.params.k] *)
Definition param (params : Obj JsVal) (k : string) : JsVal :=
  default JUndefined (obj_get params k).

(** Line 15: [Object.assign({}, defaultParams, params)]. *)
Definition merged_params (params : JsVal) : Obj JsVal :=
  Object_assign (Object_assign [] defaultParams) (own_props params).

(** Line 22: [graphqlUrl.replace('/v1/graphql', '/v1/query')]. *)
Definition default_queryUrl (graphqlUrl : string) : string :=
  String_replace "/v1/graphql" "/v1/query" graphqlUrl.

(** Line 23:
    [graphqlUrl.replace('http://', 'ws://').replace('https://', 'wss://')]. *)
Definition default_wsUrl (graphqlUrl : string) : string :=
  String_replace "https://" "wss://" (String_replace "http://" "ws://" graphqlUrl).

(** [constructor(params)], lines 8-31: the value of [this.params] and the
    initial state of the instance, or the error thrown.  The transports
    [$sql], [$gql] and [$ws] are built from [this.params] by classes that
    are not part of the sources; their construction is left out. *)
Definition new_Hasura (params : JsVal) : Completion (Obj JsVal * Hasura) :=
  let this_params := merged_params params in
  if negb (truthy (param this_params "graphqlUrl"))
  then Throw (JError "graphqlUrl is required")
  else
    match param this_params "graphqlUrl" with
    | JStr graphqlUrl =>
        if negb (truthy (param this_params "adminSecret"))
        then Throw (JError "adminSecret is required")
        else
          let this_params :=
            if negb (truthy (param this_params "queryUrl"))
            then obj_set "queryUrl" (JStr (default_queryUrl graphqlUrl)) this_params
            else this_params in
          let this_params :=
            if negb (truthy (param this_params "wsUrl"))
            then obj_set "wsUrl" (JStr (default_wsUrl graphqlUrl)) this_params
            else this_params in
          Normal (this_params, {| tables := ∅; INITIATED := false |})
    | _ => Throw (JError "graphqlUrl must be Url format")
    end.

(* ===================================================================== *)
(** ** The introspection passes of [init] *)
(* ===================================================================== *)

(** The three statements that [init] sends to [$sql.run], lines 35-39,
    50-54 and 66-79; the SQL text is a constant of the source. *)
Inductive Statement := TablesStatement | ColumnsStatement | PrimaryKeysStatement.

(** The rows of the three answers, with the columns that [init] reads;
    the answers are taken to be arrays of rows whose columns are strings
    ([position] is a number). *)
Record TableRow := { tables_table_name : string; tables_table_type : string }.

Record ColumnRow := {
  columns_table_name : string;
  column_name : string;
  data_type : string;
  udt_name : string
}.

Record PrimaryKeyRow := {
  keys_table_name : string;
  key_column : string;
  position : Z
}.

(** What [init] changes: the instance and the statements sent so far. *)
Record Introspection := { init_this : Hasura; sql_calls : list Statement }.

Definition MI (A : Type) : Type := Introspection -> Completion A * Introspection.

#[global] Instance MI_ret : MRet MI := fun A a w => (Normal a, w).
#[global] Instance MI_bind : MBind MI := fun A B f m w =>
  match m w with
  | (Normal a, w') => f a w'
  | (Throw e, w') => (Throw e, w')
  end.

(** [throw e] *)
Definition throw {A} (e : JsVal) : MI A := fun w => (Throw e, w).

(** [l.forEach(f)] where the callback changes the state [s] and may
    throw: what it did before it threw is kept. *)
Fixpoint forEach_mut {A S} (f : S -> A -> Completion () * S) (l : list A) (s : S)
  : Completion () * S :=
  match l with
  | [] => (Normal (), s)
  | x :: l' =>
      match f s x with
      | (Normal _, s') => forEach_mut f l' s'
      | (Throw e, s') => (Throw e, s')
      end
  end.

(** A step of [init] that works on [this] only. *)
Definition on_this (f : Hasura -> Completion () * Hasura) : MI () := fun w =>
  let '(r, this) := f (init_this w) in
  (r, {| init_this := this; sql_calls := sql_calls w |}).

(** [this.table(name).method(...)] for a method that changes its table:
    [method] gives the completion of the call and the table after it. *)
Definition call_table (name : string) (method : Table -> Completion () * Table)
    (this : Hasura) : Completion () * Hasura :=
  match table this name with
  | Throw e => (Throw e, this)
  | Normal t =>
      let '(r, t') := method t in
      (r, {| tables := <[name := t']> (tables this); INITIATED := INITIATED this |})
  end.

Section Init.

(** The collaborators of [init] that are not part of the sources: the
    answers [[err, data]] of [$sql.run] to the three statements, the
    methods [setField], [setPrimarykey] and [init] of [Table], and the
    order in which [Object.keys] enumerates [this.tables]. *)
Variable sql_tables : Completion (JsVal * list TableRow).
Variable sql_columns : Completion (JsVal * list ColumnRow).
Variable sql_keys : Completion (JsVal * list PrimaryKeyRow).
Variable Table_setField : Field -> Table -> Completion () * Table.
Variable Table_setPrimarykey : string -> Z -> Table -> Completion () * Table.
Variable Table_init : Table -> Completion () * Table.
Variable tables_keys : gmap string Table -> list string.

(** [await this.$sql.run(statement)] *)
Definition sql_run {A} (statement : Statement) (answer : Completion (JsVal * A))
  : MI (JsVal * A) := fun w =>
  (answer, {| init_this := init_this w; sql_calls := sql_calls w ++ [statement] |}).

(** Lines 42-47. *)
Definition createTable_each (this : Hasura) (row : TableRow) : Completion () * Hasura :=
  (Normal (), createTable (tables_table_name row) (tables_table_type row) this).

(** Lines 57-63. *)
Definition setField_each (this : Hasura) (row : ColumnRow) : Completion () * Hasura :=
  call_table (columns_table_name row)
    (Table_setField {| field_name := column_name row; logicalType := data_type row;
                       nativeType := udt_name row |})
    this.

(** Lines 82-87. *)
Definition setPrimarykey_each (this : Hasura) (row : PrimaryKeyRow)
  : Completion () * Hasura :=
  call_table (keys_table_name row) (Table_setPrimarykey (key_column row) (position row)) this.

(** Lines 89-91. *)
Definition init_each (this : Hasura) (tableName : string) : Completion () * Hasura :=
  call_table tableName Table_init this.

(** [async init()], lines 33-94. *)
Definition init : MI () :=
  '(err, data) ← sql_run TablesStatement sql_tables;
  _ ← (if truthy err then throw err else mret ());
  _ ← on_this (forEach_mut createTable_each data);
  '(err, data) ← sql_run ColumnsStatement sql_columns;
  _ ← (if truthy err then throw err else mret ());
  _ ← on_this (forEach_mut setField_each data);
  '(err, data) ← sql_run PrimaryKeysStatement sql_keys;
  _ ← (if truthy err then throw err else mret ());
  _ ← on_this (forEach_mut setPrimarykey_each data);
  _ ← on_this (fun this => forEach_mut init_each (tables_keys (tables this)) this);
  on_this (fun this => (Normal (), {| tables := tables this; INITIATED := true |})).

End Init.

(** The catalog after the loop of lines 42-47 over the rows [rows]. *)
Definition registered (rows : list TableRow) (this : Hasura) : Hasura :=
  foldl (fun this row => createTable (tables_table_name row) (tables_table_type row) this)
        this rows.

(** The state in which [init] leaves [w]: the instance [this] and the
    statements [statements] sent in addition. *)
Definition init_sent (statements : list Statement) (this : Hasura) (w : Introspection)
  : Introspection :=
  {| init_this := this; sql_calls := sql_calls w ++ statements |}.

(* ===================================================================== *)
(** ** Stand-in collaborators for the constructor and for [init] *)
(* ===================================================================== *)

Module Scenario.


Definition config_object : Obj JsVal :=
  [("graphqlUrl", JStr "http://localhost:8080/v1/graphql");
   ("adminSecret", JStr "secret")].

(** The answers of section 8 of the specification, with one more table. *)
Definition tables_answer : Completion (JsVal * list TableRow) :=
  Normal (JNull,
          [ {| tables_table_name := "user"; tables_table_type := "BASE TABLE" |};
            {| tables_table_name := "post"; tables_table_type := "BASE TABLE" |} ]).

Definition columns_answer : Completion (JsVal * list ColumnRow) :=
  Normal (JNull,
          [ {| columns_table_name := "user"; column_name := "id";
               data_type := "integer"; udt_name := "int4" |};
            {| columns_table_name := "post"; column_name := "title";
               data_type := "text"; udt_name := "text" |} ]).

Definition keys_answer : Completion (JsVal * list PrimaryKeyRow) :=
  Normal (JNull, [ {| keys_table_name := "user"; key_column := "id"; position := 1 |} ]).

(** Answers that fail, and a column of a table that was not listed. *)
Definition refused : JsVal := JError "connection refused".

Definition tables_refused : Completion (JsVal * list TableRow) := Normal (refused, []).

Definition columns_refused : Completion (JsVal * list ColumnRow) := Normal (refused, []).





(** Table methods that record what they are given. *)
Definition setField (field : Field) (t : Table) : Completion () * Table :=
  (Normal (),
   {| table_name := table_name t; table_type := table_type t;
      fields := <[field_name field := field]> (fields t);
      primaryKey := primaryKey t |}).

Definition setPrimarykey (name : string) (_ : Z) (t : Table) : Completion () * Table :=
  (Normal (),
   {| table_name := table_name t; table_type := table_type t;
      fields := fields t; primaryKey := primaryKey t ++ [name] |}).

Definition finalize (t : Table) : Completion () * Table := (Normal (), t).

Definition keys (m : gmap string Table) : list string := (map_to_list m).*1.

Definition fresh : Introspection :=
  {| init_this := {| tables := ∅; INITIATED := false |}; sql_calls := [] |}.

(** [init] with the answers above. *)
Definition init_with (tables_answer : Completion (JsVal * list TableRow))
    (columns_answer : Completion (JsVal * list ColumnRow))
    (keys_answer : Completion (JsVal * list PrimaryKeyRow)) : MI () :=
  init tables_answer columns_answer keys_answer setField setPrimarykey finalize keys.

(** Transports that answer with an error, that throw. *)
Definition failing_transport (_ : list GqlRequest) (_ : GqlRequest)
  : Completion (JsVal * JsVal) := Normal (refused, JUndefined).

Definition throwing_transport (_ : list GqlRequest) (_ : GqlRequest)
  : Completion (JsVal * JsVal) := Throw refused.

(** A mutation builder whose build has an empty flat setting. *)
Definition bare_builder (t : Table) (args : Obj JsVal) : Completion (list Built) :=
  Normal [ {| built_name := "insert_" +:+ table_name t;
              built_query_variables := [];
              built_fields := "insert_" +:+ table_name t +:+ " { affected_rows }";
              built_fragmentName := "none";
              built_fragment := "";
              built_flatSetting := [];
              built_variables := [] |} ].



Definition flatOne_null : option (Obj JsVal) := Some [("flatOne", JNull)].

Definition insert_then_ghost : Obj JsVal :=
  [("user", JObj [("insert", JObj [("objects", JArr [])])]);
   ("ghost", JObj [("insert", JObj [("objects", JArr [])])])].

Definition nested_response : Obj JsVal :=
  [("insert_user", JObj [("returning", JArr [JObj [("id", JNum 1)]])])].

End Scenario.

(* ===================================================================== *)
(** ** Facts about ordered objects *)
(* ===================================================================== *)

Section ObjectFacts.
Context {A : Type}.
Implicit Types (o : Obj A) (k : string) (v : A).

Lemma obj_get_None o k : obj_get o k = None <-> k ∉ Object_keys o.
Proof.
  unfold Object_keys. induction o as [|[k' v'] o IH]; simpl.
  - split; [intros _; apply not_elem_of_nil | done].
  - rewrite not_elem_of_cons. destruct (String.eqb_spec k' k) as [->|Hne].
    + split; [done | intros [? _]; done].
    + rewrite IH. split; [intros ?; split; [congruence | done] | tauto].
Qed.


Lemma obj_get_app o1 o2 k :
  obj_get (o1 ++ o2) k =
  match obj_get o1 k with Some x => Some x | None => obj_get o2 k end.
Proof.
  induction o1 as [|[k' v'] o1 IH]; simpl; [done|].
  by destruct (String.eqb k' k).
Qed.

Lemma obj_get_replace o k v k' :
  is_Some (obj_get o k) ->
  obj_get (obj_replace k v o) k' = if String.eqb k k' then Some v else obj_get o k'.
Proof.
  induction o as [|[k1 v1] o IH]; simpl; intros Hin.
  - by destruct Hin.
  - destruct (String.eqb_spec k1 k) as [->|Hne]; simpl.
    + by destruct (String.eqb k k').
    + rewrite (IH Hin).
      destruct (String.eqb_spec k1 k') as [->|Hne'];
        destruct (String.eqb_spec k k') as [->|Hne'']; congruence.
Qed.

Lemma obj_get_add_index n o k v k' :
  obj_get o k = None ->
  obj_get (obj_add_index n k v o) k' = if String.eqb k k' then Some v else obj_get o k'.
Proof.
  induction o as [|[k1 v1] o IH]; simpl; [done|].
  destruct (String.eqb_spec k1 k) as [->|Hne]; [done|]. intros Hnone.
  destruct (array_index k1) as [n'|]; [destruct (n' <? n)%N|]; simpl; try done.
  rewrite (IH Hnone).
  destruct (String.eqb_spec k1 k') as [->|Hne'];
    destruct (String.eqb_spec k k') as [->|Hne'']; congruence.
Qed.

(** Reading after writing: the law of [o[k] = v]. *)
Lemma obj_get_set o k v k' :
  obj_get (obj_set k v o) k' = if String.eqb k k' then Some v else obj_get o k'.
Proof.
  unfold obj_set. destruct (obj_get o k) as [x|] eqn:Hget.
  - apply obj_get_replace. rewrite Hget. by eexists.
  - destruct (array_index k) as [n|].
    + by apply obj_get_add_index.
    + rewrite obj_get_app. simpl.
      destruct (String.eqb_spec k k') as [<-|Hne].
      * by rewrite Hget.
      * by destruct (obj_get o k').
Qed.

Lemma obj_get_set_eq o k v : obj_get (obj_set k v o) k = Some v.
Proof. by rewrite obj_get_set, String.eqb_refl. Qed.

Lemma obj_get_set_ne o k v k' : k <> k' -> obj_get (obj_set k v o) k' = obj_get o k'.
Proof. intros Hne. rewrite obj_get_set. by apply String.eqb_neq in Hne as ->. Qed.





(** A key that is not an array index is appended after the existing keys. *)
Lemma keys_set_new o k v :
  k ∉ Object_keys o -> array_index k = None ->
  Object_keys (obj_set k v o) = Object_keys o ++ [k].
Proof.
  intros Hx%obj_get_None Hk. unfold obj_set. rewrite Hx, Hk.
  unfold Object_keys. by rewrite fmap_app.
Qed.



(** [Object.assign]: the last binding of the source wins over the target. *)
Lemma obj_get_assign (target source : Obj A) k :
  obj_get (Object_assign target source) k =
  match obj_get (reverse source) k with
  | Some x => Some x
  | None => obj_get target k
  end.
Proof.
  unfold Object_assign. revert target.
  induction source as [|[k1 v1] s IH]; intros t; simpl; [done|].
  rewrite IH, reverse_cons, obj_get_app, obj_get_set. simpl.
  destruct (obj_get (reverse s) k); [done|].
  by destruct (String.eqb k1 k).
Qed.

Lemma obj_get_reverse o k :
  NoDup (Object_keys o) -> obj_get (reverse o) k = obj_get o k.
Proof.
  unfold Object_keys. induction o as [|[k1 v1] o IH]; simpl; [done|].
  intros [Hout Hnd]%NoDup_cons.
  rewrite reverse_cons, obj_get_app, (IH Hnd). simpl.
  destruct (String.eqb_spec k1 k) as [->|Hne].
  - by apply obj_get_None in Hout as ->.
  - by destruct (obj_get o k).
Qed.

(** Copying an object into a fresh one preserves its bindings. *)
Lemma obj_get_assign_fresh (source : Obj A) k :
  NoDup (Object_keys source) ->
  obj_get (Object_assign [] source) k = obj_get source k.
Proof.
  intros Hnd. rewrite obj_get_assign, obj_get_reverse by done.
  by destruct (obj_get source k).
Qed.

(** An object literal whose keys are distinct and are not array indices
    enumerates its keys in the order in which the literal lists them. *)
Lemma Object_assign_literal (target entries : Obj A) :
  NoDup (Object_keys (target ++ entries)) ->
  Forall (fun k => array_index k = None) (Object_keys entries) ->
  Object_assign target entries = target ++ entries.
Proof.
  unfold Object_assign. revert target.
  induction entries as [|[k v] es IH]; intros t Hnd Hidx; simpl.
  - by rewrite app_nil_r.
  - unfold Object_keys in Hidx. csimpl in Hidx.
    apply Forall_cons in Hidx as [Hk Hes].
    assert (obj_set k v t = t ++ [(k, v)]) as ->.
    { unfold obj_set. rewrite Hk.
      assert (obj_get t k = None) as ->; [|done].
      apply obj_get_None. unfold Object_keys in *.
      rewrite fmap_app in Hnd. apply NoDup_app in Hnd as (_ & Hdisj & _).
      intros Hin. apply (Hdisj k Hin). csimpl. by left. }
    rewrite IH, <- app_assoc; [done | by rewrite <- app_assoc | done].
Qed.

End ObjectFacts.

Example array_index_canonical :
  array_index <$> ["0"; "7"; "42"; "4294967294"; "4294967295"; "07"; "-1"; "1e3"; "users"; ""]
  = [Some 0%N; Some 7%N; Some 42%N; Some 4294967294%N; None; None; None; None; None; None].
Proof. reflexivity. Qed.

Example keys_literal_order :
  Object_keys (Object_assign [] [("users", 1); ("posts", 2); ("user", 3)])
  = ["users"; "posts"; "user"].
Proof. reflexivity. Qed.

(** Array-index keys are enumerated first, whatever the literal says. *)
Example keys_index_first :
  Object_keys (Object_assign [] [("users", 1); ("7", 2); ("posts", 3); ("2", 4)])
  = ["2"; "7"; "users"; "posts"].
Proof. reflexivity. Qed.

(* ===================================================================== *)
(** ** Facts about [forEach] and about the composer *)
(* ===================================================================== *)

Section ForEachFacts.
Context {A B S : Type}.
Variable f : S -> A -> Completion S.
Variable g : A -> Completion B.
Variable h : S -> B -> S.
Hypothesis f_body : forall s x, f s x = (b ← g x; mret (h s b)).

(** A loop whose body computes [g x] and then updates the state without
    throwing: when every [g x] returns, so does the loop. *)
Lemma forEach_returns l bs s :
  Forall2 (fun x b => g x = Normal b) l bs -> forEach f l s = Normal (foldl h s bs).
Proof.
  intros Hall. revert s. induction Hall as [|x b l bs Hx _ IH]; intros s; simpl; [done|].
  rewrite f_body, Hx. simpl. apply IH.
Qed.

Lemma forEach_returns_inv l s s' :
  forEach f l s = Normal s' ->
  exists bs, Forall2 (fun x b => g x = Normal b) l bs /\ s' = foldl h s bs.
Proof.
  revert s. induction l as [|x l IH]; intros s; simpl.
  - intros [= <-]. exists []. by split; [constructor|].
  - rewrite f_body. destruct (g x) as [b|e] eqn:Hx; simpl; [|done].
    intros (bs & Hall & ->)%IH. exists (b :: bs). by split; [constructor|].
Qed.

(** The loop stops at the first element for which [g] throws. *)
Lemma forEach_throws l s x :
  x ∈ l -> (exists e, g x = Throw e) -> exists e, forEach f l s = Throw e.
Proof.
  intros Hin [e He]. revert s. induction l as [|y l IH]; intros s; simpl.
  - by apply elem_of_nil in Hin.
  - rewrite f_body. destruct (g y) as [b|e'] eqn:Hy; simpl; [|by eexists].
    apply elem_of_cons in Hin as [->|Hin]; [congruence | by apply IH].
Qed.

End ForEachFacts.

Section ComposerFacts.
Implicit Types (c : Composer) (builds : list Built).

Lemma queryName_foldl c builds :
  queryName (foldl push_built c builds) = queryName c ++ (built_name <$> builds).
Proof.
  revert c. induction builds as [|b bs IH]; intros c; csimpl.
  - by rewrite app_nil_r.
  - rewrite IH. simpl. by rewrite <- app_assoc.
Qed.

Lemma queryFields_foldl c builds :
  queryFields (foldl push_built c builds) = queryFields c ++ (built_fields <$> builds).
Proof.
  revert c. induction builds as [|b bs IH]; intros c; csimpl.
  - by rewrite app_nil_r.
  - rewrite IH. simpl. by rewrite <- app_assoc.
Qed.

Lemma queryVariables_foldl c builds :
  queryVariables (foldl push_built c builds)
  = queryVariables c ++ concat (built_query_variables <$> builds).
Proof.
  revert c. induction builds as [|b bs IH]; intros c; csimpl.
  - by rewrite app_nil_r.
  - rewrite IH. simpl. by rewrite <- app_assoc.
Qed.

Lemma queryFlatSetting_foldl c builds :
  queryFlatSetting (foldl push_built c builds) = queryFlatSetting c.
Proof. revert c. induction builds as [|b bs IH]; intros c; simpl; [done | by rewrite IH]. Qed.

Lemma queryFragments_foldl c builds :
  queryFragments (foldl push_built c builds) =
  foldl (fun F b => obj_set (built_fragmentName b) (built_fragment b) F)
        (queryFragments c) builds.
Proof. revert c. induction builds as [|b bs IH]; intros c; simpl; [done | by rewrite IH]. Qed.

Lemma variables_foldl c builds :
  variables (foldl push_built c builds) =
  foldl (fun V b => Object_assign (Object_assign [] V) (built_variables b))
        (variables c) builds.
Proof. revert c. induction builds as [|b bs IH]; intros c; simpl; [done | by rewrite IH]. Qed.

(** The mutation loop differs from the query loop by the flat settings only. *)
Lemma push_mutation_built_foldl c builds :
  foldl push_mutation_built c builds =
  {| queryName := queryName (foldl push_built c builds);
     queryVariables := queryVariables (foldl push_built c builds);
     queryFields := queryFields (foldl push_built c builds);
     queryFragments := queryFragments (foldl push_built c builds);
     queryFlatSetting := queryFlatSetting c ++ (built_flatSetting <$> builds);
     variables := variables (foldl push_built c builds) |}.
Proof.
  rewrite queryName_foldl, queryVariables_foldl, queryFields_foldl,
    queryFragments_foldl, variables_foldl.
  revert c. induction builds as [|b bs IH]; intros c; csimpl.
  - rewrite !app_nil_r. by destruct c.
  - rewrite IH. simpl. by rewrite <- !app_assoc.
Qed.


Lemma composed_mutation_fields builds :
  composed_mutation builds =
  {| queryName := queryName (composed builds);
     queryVariables := queryVariables (composed builds);
     queryFields := queryFields (composed builds);
     queryFragments := queryFragments (composed builds);
     queryFlatSetting := built_flatSetting <$> builds;
     variables := variables (composed builds) |}.
Proof. unfold composed_mutation, composed. by rewrite push_mutation_built_foldl. Qed.










End ComposerFacts.

(* ===================================================================== *)
(** ** Facts about paths and about the remapping loop *)
(* ===================================================================== *)

Section PathFacts.
Implicit Types (p q segs : list string) (o : Obj JsVal) (v : JsVal).



Lemma path_lookup_cons k k' rest o :
  path_lookup (k :: k' :: rest) o =
  match obj_get o k with Some (JObj c) => path_lookup (k' :: rest) c | _ => None end.
Proof. reflexivity. Qed.






Lemma forEach_app {X S} (f : S -> X -> Completion S) (l1 l2 : list X) (s : S) :
  forEach f (l1 ++ l2) s = (s' ← forEach f l1 s; forEach f l2 s').
Proof.
  revert s. induction l1 as [|x l1 IH]; intros s; simpl; [done|].
  destruct (f s x); [apply IH | done].
Qed.

(** A missing last segment reads [undefined] ... *)
Lemma walk_missing_last response hasura_path parents k o :
  split "." hasura_path = parents ++ [k] ->
  forEach js_get parents response = Normal (JObj o) ->
  obj_get o k = None ->
  walk response hasura_path = Normal JUndefined.
Proof.
  intros Hsplit Hparents Hk. unfold walk.
  rewrite Hsplit, forEach_app, Hparents. simpl. by rewrite Hk.
Qed.

(** ... and a missing earlier segment makes the next read throw. *)
Lemma walk_missing_inner response hasura_path parents k k' rest o :
  split "." hasura_path = parents ++ k :: k' :: rest ->
  forEach js_get parents response = Normal (JObj o) ->
  obj_get o k = None ->
  walk response hasura_path = Throw JTypeError.
Proof.
  intros Hsplit Hparents Hk. unfold walk.
  rewrite Hsplit, forEach_app, Hparents. simpl. by rewrite Hk.
Qed.

Lemma remap_each_body response toReturn flat :
  remap_each response toReturn flat =
  (write ← match Object_entries flat !! 0 with
           | None => Throw JTypeError
           | Some (request_path, hasura_path) =>
               value ← walk response hasura_path; mret (request_path, value)
           end;
   mret (objectFromPath toReturn write.1 write.2)).
Proof.
  unfold remap_each. destruct (Object_entries flat !! 0) as [[rp hp]|]; [|done].
  by destruct (walk response hp).
Qed.

(** The remapping loop returns as soon as every endpoint path is resolved. *)
Lemma remap_returns response flatSettings writes :
  remap_writes response flatSettings writes ->
  forEach (remap_each response) flatSettings [] = Normal (remapped writes).
Proof.
  intros Hw. unfold remapped.
  apply (forEach_returns _ _ (fun toReturn write => objectFromPath toReturn write.1 write.2)
           (remap_each_body response)).
  eapply Forall2_impl; [exact Hw|].
  intros flat [rp value] (hp & -> & Hwalk). simpl in *. by rewrite Hwalk.
Qed.

End PathFacts.

(* ===================================================================== *)
(** ** Properties of the methods of [Hasura] *)
(* ===================================================================== *)

(** Unfolding of the methods, by name. *)
Ltac unfold_table_buildQuery := unfold table_buildQuery, table.
Ltac unfold_buildQuery := unfold buildQuery.
Ltac unfold_buildMutation := unfold buildMutation.
Ltac unfold_query := unfold query.
Ltac unfold_mutate := unfold mutate.
Ltac unfold_subscribe := unfold subscribe.

Section Properties.
Variable Table_buildQuery : Table -> Obj JsVal -> Completion Built.
Variable Table_buildMutation : Table -> Obj JsVal -> Completion (list Built).
Variable gql : list GqlRequest -> GqlRequest -> Completion (JsVal * JsVal).
Variable ws : list WsRequest -> WsRequest -> Completion JsVal.

Local Abbreviation table_buildQuery := (table_buildQuery Table_buildQuery).
Local Abbreviation table_buildMutation := (table_buildMutation Table_buildMutation).
Local Abbreviation query_builds := (query_builds Table_buildQuery).
Local Abbreviation mutation_builds := (mutation_builds Table_buildMutation).
Local Abbreviation buildQuery := (buildQuery Table_buildQuery).
Local Abbreviation buildMutation := (buildMutation Table_buildMutation).
Local Abbreviation query := (query Table_buildQuery gql).
Local Abbreviation mutate := (mutate Table_buildMutation gql).
Local Abbreviation subscribe := (subscribe Table_buildQuery ws).

Implicit Types (this : Hasura) (params : Obj JsVal) (w : World).

(** *** The composer, in terms of the per-table builds *)

Lemma buildQuery_of_builds this params queryType builds :
  query_builds this params queryType builds ->
  buildQuery this params queryType
  = Normal (query_document queryType (composed builds), variables (composed builds)).
Proof.
  intros Hb. unfold_buildQuery.
  by rewrite (forEach_returns (buildQuery_each Table_buildQuery this params queryType)
                (table_buildQuery this params queryType) push_built
                (fun _ _ => eq_refl) _ _ _ Hb).
Qed.

Lemma buildQuery_builds_inv this params queryType doc vars :
  buildQuery this params queryType = Normal (doc, vars) ->
  exists builds, query_builds this params queryType builds /\
    doc = query_document queryType (composed builds) /\ vars = variables (composed builds).
Proof.
  unfold_buildQuery.
  destruct (forEach _ _ _) as [c|e] eqn:Hloop; simpl; [|done].
  intros [= <- <-].
  apply (forEach_returns_inv (buildQuery_each Table_buildQuery this params queryType)
           (table_buildQuery this params queryType) push_built
           (fun _ _ => eq_refl)) in Hloop as (builds & Hb & ->).
  by exists builds.
Qed.

Lemma foldl_foldl_concat {X Y} (op : X -> Y -> X) (x : X) (ls : list (list Y)) :
  foldl (foldl op) x ls = foldl op x (concat ls).
Proof.
  revert x. induction ls as [|l ls IH]; intros x; simpl; [done|].
  by rewrite IH, foldl_app.
Qed.

Lemma buildMutation_of_builds this params builtss :
  mutation_builds this params builtss ->
  buildMutation this params
  = Normal (mutation_document (composed_mutation (concat builtss)),
            variables (composed_mutation (concat builtss)),
            queryFlatSetting (composed_mutation (concat builtss))).
Proof.
  intros Hb. unfold_buildMutation; unfold composed_mutation.
  rewrite (forEach_returns (buildMutation_each Table_buildMutation this params)
             (table_buildMutation this params) (foldl push_mutation_built)
             (fun _ _ => eq_refl) _ _ _ Hb).
  by rewrite foldl_foldl_concat.
Qed.

(** An unknown table makes [buildQuery] throw, whatever the other tables. *)
Lemma buildQuery_unknown_table this params queryType tableName :
  tableName ∈ Object_keys params ->
  tables this !! tableName = None ->
  exists err, buildQuery this params queryType = Throw err.
Proof.
  intros Hin Hnone. unfold_buildQuery.
  destruct (forEach_throws (buildQuery_each Table_buildQuery this params queryType)
              (table_buildQuery this params queryType) push_built
              (fun _ _ => eq_refl) (Object_keys params) composer_init tableName Hin)
    as [e ->]; [|by exists e].
  unfold_table_buildQuery. rewrite Hnone. by eexists.
Qed.

(** *** Properties stated by the specification *)

(** C1 (flattening law).  Assume that the document compiles and that the
    transport answers [[err, response]] with a falsy [err].  If [params]
    has exactly one key [tableName] and [flatOne] has its default value
    [true], [query] reads [response[tableName]] and returns
    [[null, response[tableName]]]; if [params] has two keys or more,
    [query] returns [[null, response]] whatever the options are. *)
Theorem query_flattening this params opts w doc vars err response :
  buildQuery this params "query" = Normal (doc, vars) ->
  gql (gql_calls w) {| gql_query := doc; gql_variables := vars |}
    = Normal (err, response) ->
  truthy err = false ->
  (forall tableName,
      Object_keys params = [tableName] -> opt_flatOne opts = JBool true ->
      query this params opts w
      = (v ← js_get response tableName; mret (JArr [JNull; v]),
         gql_sent {| gql_query := doc; gql_variables := vars |} w))
  /\ (2 <= length (Object_keys params) ->
      query this params opts w
      = (Normal (JArr [JNull; response]),
         gql_sent {| gql_query := doc; gql_variables := vars |} w)).
Proof.
  intros Hbuild Hgql Herr.
  unfold_query. rewrite Hbuild.
  unfold mbind, M_bind, gql_run. rewrite Hgql, Herr.
  split.
  - intros tableName Hkeys Hflat. rewrite Hkeys, Hflat. simpl.
    unfold lift. change (first_key [tableName]) with tableName.
    by destruct (js_get response tableName).
  - intros Hlen.
    destruct (length (Object_keys params)) as [|[|n]] eqn:Hn; [lia | lia | done].
Qed.

(** C2 (unknown table).  If [params] names a table that is not in the
    catalog, [buildQuery] throws some [err], [query] returns the
    one-element array [[err]], and the world is unchanged: [$gql.run] has
    not been called. *)
Theorem query_unknown_table this params opts w tableName :
  tableName ∈ Object_keys params ->
  tables this !! tableName = None ->
  exists err,
    buildQuery this params "query" = Throw err /\
    query this params opts w = (Normal (JArr [err]), w).
Proof.
  intros Hin Hnone.
  destruct (buildQuery_unknown_table this params "query" tableName Hin Hnone) as [err Herr].
  exists err. split; [done|].
  unfold_query. by rewrite Herr.
Qed.

(** C10 (return shapes of [subscribe]).  When the compilation throws
    [err], [subscribe] returns the one-element array [[err]] and does not
    open the live transport; this is the case when [params] names an
    unknown table.  When the compilation succeeds, [subscribe] returns
    what [$ws.run] returns for the compiled document, that is the
    unsubscribe handle. *)
Theorem subscribe_return_shapes this params callback opts w :
  (forall err,
      buildQuery this params "subscription" = Throw err ->
      subscribe this params callback opts w = (Normal (JArr [err]), w))
  /\ (forall tableName,
        tableName ∈ Object_keys params -> tables this !! tableName = None ->
        exists err, subscribe this params callback opts w = (Normal (JArr [err]), w))
  /\ (forall doc vars,
        buildQuery this params "subscription" = Normal (doc, vars) ->
        let req :=
          {| ws_query := doc; ws_variables := vars; ws_callback := callback;
             ws_flatOne :=
               if (length (Object_keys params) =? 1)%nat && truthy (opt_flatOne opts)
               then JStr (first_key (Object_keys params)) else JBool false |} in
        subscribe this params callback opts w = (ws (ws_calls w) req, ws_sent req w)).
Proof.
  split; [|split].
  - intros err Herr. unfold_subscribe. by rewrite Herr.
  - intros tableName Hin Hnone.
    destruct (buildQuery_unknown_table this params "subscription" tableName Hin Hnone)
      as [err Herr].
    exists err. unfold_subscribe. by rewrite Herr.
  - intros doc vars Hbuild req. unfold_subscribe. by rewrite Hbuild.
Qed.


(** C9 (empty parameter list).  When no build declares a variable, the
    query document has nothing between the operation name and the opening
    brace.  The mutation document always has the parentheses around its
    declarations, and therefore the empty list [()] when no build
    declares a variable. *)
Theorem empty_parameter_list this params queryType :
  (forall builds,
      query_builds this params queryType builds ->
      concat (built_query_variables <$> builds) = [] ->
      buildQuery this params queryType
      = Normal
          (nl +:+ indent12 +:+
             join nl (Object_values (queryFragments (composed builds))) +:+
           nl +:+ indent12 +:+ queryType +:+ " " +:+
             join "_" (built_name <$> builds) +:+ "  {" +:+
           nl +:+ indent16 +:+ join nl (built_fields <$> builds) +:+
           nl +:+ indent12 +:+ "}" +:+
           nl +:+ indent8,
           variables (composed builds)))
  /\ (forall builtss,
        mutation_builds this params builtss ->
        buildMutation this params
        = Normal
            (nl +:+ indent12 +:+
               join nl (Object_values (queryFragments (composed (concat builtss)))) +:+
             nl +:+ indent12 +:+ "mutation " +:+
               join "_" (built_name <$> concat builtss) +:+
               " (" +:+ join ", " (concat (built_query_variables <$> concat builtss)) +:+
               ") {" +:+
             nl +:+ indent16 +:+ join nl (built_fields <$> concat builtss) +:+
             nl +:+ indent12 +:+ "}" +:+
             nl +:+ indent8,
             variables (composed (concat builtss)),
             built_flatSetting <$> concat builtss))
  /\ (forall builtss,
        mutation_builds this params builtss ->
        concat (built_query_variables <$> concat builtss) = [] ->
        buildMutation this params
        = Normal
            (nl +:+ indent12 +:+
               join nl (Object_values (queryFragments (composed (concat builtss)))) +:+
             nl +:+ indent12 +:+ "mutation " +:+
               join "_" (built_name <$> concat builtss) +:+ " () {" +:+
             nl +:+ indent16 +:+ join nl (built_fields <$> concat builtss) +:+
             nl +:+ indent12 +:+ "}" +:+
             nl +:+ indent8,
             variables (composed (concat builtss)),
             built_flatSetting <$> concat builtss)).
Proof.
  assert (forall builtss,
    mutation_builds this params builtss ->
    buildMutation this params
    = Normal
        (nl +:+ indent12 +:+
           join nl (Object_values (queryFragments (composed (concat builtss)))) +:+
         nl +:+ indent12 +:+ "mutation " +:+
           join "_" (built_name <$> concat builtss) +:+
           " (" +:+ join ", " (concat (built_query_variables <$> concat builtss)) +:+
           ") {" +:+
         nl +:+ indent16 +:+ join nl (built_fields <$> concat builtss) +:+
         nl +:+ indent12 +:+ "}" +:+
         nl +:+ indent8,
         variables (composed (concat builtss)),
         built_flatSetting <$> concat builtss)) as Hmutation.
  { intros builtss Hb.
    rewrite (buildMutation_of_builds _ _ _ Hb), composed_mutation_fields.
    unfold mutation_document, composed. simpl.
    by rewrite queryName_foldl, queryVariables_foldl, queryFields_foldl. }
  split; [|split].
  - intros builds Hb Hempty.
    rewrite (buildQuery_of_builds _ _ _ _ Hb). unfold query_document, composed.
    rewrite queryName_foldl, queryVariables_foldl, queryFields_foldl. simpl.
    by rewrite Hempty.
  - exact Hmutation.
  - intros builtss Hb Hempty. rewrite (Hmutation _ Hb). by rewrite Hempty.
Qed.



(** *** Remapping *)

Lemma mutate_after_transport this params w doc vars flatSettings err response :
  buildMutation this params = Normal (doc, vars, flatSettings) ->
  gql (gql_calls w) {| gql_query := doc; gql_variables := vars |}
    = Normal (err, response) ->
  truthy err = false ->
  mutate this params w
  = (toReturn ← forEach (remap_each response) flatSettings [];
     mret (JArr [JNull; JObj toReturn]),
     gql_sent {| gql_query := doc; gql_variables := vars |} w).
Proof.
  intros Hbuild Hgql Herr. unfold_mutate. rewrite Hbuild.
  unfold mbind at 1. unfold M_bind, gql_run. rewrite Hgql, Herr.
  unfold mbind at 1. unfold M_bind, lift.
  by destruct (forEach _ _ _).
Qed.


(** C4, amended (missing segment).  The remapping step has no check for
    a missing segment.  [mutate] returns a one-element error array only
    when the compilation throws or when the transport answers with an
    error; when every endpoint path is resolved, [mutate] returns the
    success pair; and an endpoint path whose last segment alone is missing
    is resolved, to [undefined]. *)
Theorem mutate_missing_segment this params w :
  (forall e w',
      mutate this params w = (Normal (JArr [e]), w') ->
      (buildMutation this params = Throw e /\ w' = w) \/
      (exists doc vars flatSettings response,
          buildMutation this params = Normal (doc, vars, flatSettings) /\
          gql (gql_calls w) {| gql_query := doc; gql_variables := vars |}
            = Normal (e, response) /\
          truthy e = true /\
          w' = gql_sent {| gql_query := doc; gql_variables := vars |} w))
  /\ (forall doc vars flatSettings err response writes,
        buildMutation this params = Normal (doc, vars, flatSettings) ->
        gql (gql_calls w) {| gql_query := doc; gql_variables := vars |}
          = Normal (err, response) ->
        truthy err = false ->
        remap_writes response flatSettings writes ->
        mutate this params w
        = (Normal (JArr [JNull; JObj (remapped writes)]),
           gql_sent {| gql_query := doc; gql_variables := vars |} w))
  /\ (forall response hasura_path parents k o,
        split "." hasura_path = parents ++ [k] ->
        forEach js_get parents response = Normal (JObj o) ->
        obj_get o k = None ->
        walk response hasura_path = Normal JUndefined).
Proof.
  split; [|split].
  - intros e w'. unfold_mutate.
    destruct (buildMutation this params) as [[[doc vars] flatSettings]|e0] eqn:Hbuild.
    + unfold mbind at 1. unfold M_bind, gql_run.
      destruct (gql _ _) as [[err response]|e1] eqn:Hgql; [|done].
      destruct (truthy err) eqn:Herr.
      * intros [= <- <-]. right. by exists doc, vars, flatSettings, response.
      * unfold mbind at 1. unfold M_bind, lift.
        by destruct (forEach _ _ _).
    + intros [= <- <-]. by left.
  - intros doc vars flatSettings err response writes Hbuild Hgql Herr Hw.
    rewrite (mutate_after_transport _ _ _ _ _ _ _ _ Hbuild Hgql Herr).
    by rewrite (remap_returns _ _ _ Hw).
  - intros response hasura_path parents k o. apply walk_missing_last.
Qed.

(** What the loop throws is not caught by [mutate]: the call rejects. *)
Lemma mutate_remap_throw this params w doc vars flatSettings err response e :
  buildMutation this params = Normal (doc, vars, flatSettings) ->
  gql (gql_calls w) {| gql_query := doc; gql_variables := vars |}
    = Normal (err, response) ->
  truthy err = false ->
  forEach (remap_each response) flatSettings [] = Throw e ->
  mutate this params w
  = (Throw e, gql_sent {| gql_query := doc; gql_variables := vars |} w).
Proof.
  intros Hbuild Hgql Herr Hloop.
  rewrite (mutate_after_transport _ _ _ _ _ _ _ _ Hbuild Hgql Herr).
  by rewrite Hloop.
Qed.

End Properties.

(** *** The registry *)

(** C8, amended (registration).  [createTable] installs a new [Table]
    under [name] whether or not the name is already registered, so that
    a second registration replaces the existing table; the other tables
    are untouched, and two registrations of the same name in a row amount
    to the last one. *)
Theorem createTable_replaces name type this :
  tables (createTable name type this) !! name = Some (new_Table name type)
  /\ (forall other, other <> name ->
        tables (createTable name type this) !! other = tables this !! other)
  /\ (forall type',
        createTable name type (createTable name type' this) = createTable name type this).
Proof.
  split; [|split].
  - apply lookup_insert_eq.
  - intros other Hne. by apply lookup_insert_ne.
  - intros type'. unfold createTable. simpl. by rewrite insert_insert_eq.
Qed.

(* ===================================================================== *)
(** ** The theorems at work on the examples *)
(* ===================================================================== *)

Ltac by_evaluation := vm_compute; reflexivity.
Ltac known_builds := repeat constructor; by_evaluation.

(** One table, default options: the rows of [users] are returned bare. *)
Lemma query_flattening_witness :
  (query Sample.table_builder (Sample.transport Sample.users_response)
     Sample.catalog Sample.one_table None Sample.world0).1
  = Normal (JArr [JNull; JArr [JObj [("id", JNum 1)]]]).
Proof.
  destruct (query_flattening Sample.table_builder (Sample.transport Sample.users_response)
              Sample.catalog Sample.one_table None Sample.world0 _ _ JNull
              Sample.users_response eq_refl eq_refl eq_refl) as [Hone _].
  exact (f_equal fst (Hone "users" eq_refl eq_refl)).
Defined.

(** The request [{ ghost: { fields: ["id"] } }] of section 8. *)
Lemma query_unknown_table_witness :
  exists err,
    buildQuery Sample.table_builder Sample.catalog Sample.ghost "query" = Throw err /\
    query Sample.table_builder (Sample.transport Sample.users_response)
      Sample.catalog Sample.ghost None Sample.world0
    = (Normal (JArr [err]), Sample.world0).
Proof.
  apply (query_unknown_table Sample.table_builder (Sample.transport Sample.users_response)
           Sample.catalog Sample.ghost None Sample.world0 "ghost").
  - repeat constructor.
  - by_evaluation.
Defined.


(** [returning] is missing from the response: [undefined] is remapped. *)
Lemma mutate_missing_segment_witness :
  (mutate Sample.mutation_builder (Sample.transport Sample.no_returning)
     Sample.catalog Sample.insert_user Sample.world0).1
  = Normal (JArr [JNull; JObj (objectFromPath [] "user.insert" JUndefined)]).
Proof.
  destruct (mutate_missing_segment Sample.mutation_builder
              (Sample.transport Sample.no_returning)
              Sample.catalog Sample.insert_user Sample.world0) as (_ & Hsuccess & Hlast).
  refine (f_equal fst (Hsuccess _ _ _ JNull Sample.no_returning
                         [("user.insert", JUndefined)] eq_refl eq_refl eq_refl _)).
  repeat constructor. exists "insert_user.returning". split; [reflexivity|].
  apply (Hlast Sample.no_returning "insert_user.returning" ["insert_user"] "returning" []);
    reflexivity.
Defined.




(** Two tables without arguments, queried and (with no action) mutated. *)
Lemma empty_parameter_list_witness :
  buildQuery Sample.table_builder Sample.catalog Sample.no_arguments "query"
  = Normal
      (nl +:+ indent12 +:+
         join nl ["fragment base_users_fragment on users { id }";
                  "fragment base_posts_fragment on posts { id }"] +:+
       nl +:+ indent12 +:+ "query users_posts  {" +:+
       nl +:+ indent16 +:+
         join nl ["users { ...base_users_fragment }"; "posts { ...base_posts_fragment }"] +:+
       nl +:+ indent12 +:+ "}" +:+
       nl +:+ indent8,
       [])
  /\ buildMutation Sample.mutation_builder Sample.catalog Sample.no_arguments
     = Normal
         (nl +:+ indent12 +:+
          nl +:+ indent12 +:+ "mutation  () {" +:+
          nl +:+ indent16 +:+
          nl +:+ indent12 +:+ "}" +:+
          nl +:+ indent8,
          [], []).
Proof.
  destruct (empty_parameter_list Sample.table_builder Sample.mutation_builder Sample.catalog
              Sample.no_arguments "query") as (Hquery & _ & Hmutation).
  split.
  - rewrite (Hquery (Sample.builds_of Sample.table_builder Sample.no_arguments "query"));
      [by_evaluation | known_builds | by_evaluation].
  - rewrite (Hmutation (Sample.mutation_builds_of Sample.no_arguments));
      [by_evaluation | known_builds | by_evaluation].
Defined.

(** An unknown table gives a one-element array, a known one the handle. *)
Lemma subscribe_return_shapes_witness :
  (exists err,
      subscribe Sample.table_builder Sample.live_transport Sample.catalog Sample.ghost (JFun 1) None
        Sample.world0
      = (Normal (JArr [err]), Sample.world0))
  /\ (subscribe Sample.table_builder Sample.live_transport Sample.catalog Sample.one_table (JFun 1) None
        Sample.world0).1
     = Normal (JFun 0).
Proof.
  split.
  - destruct (subscribe_return_shapes Sample.table_builder Sample.live_transport Sample.catalog
                Sample.ghost (JFun 1) None Sample.world0) as (_ & Hunknown & _).
    apply (Hunknown "ghost"); [repeat constructor | by_evaluation].
  - destruct (subscribe_return_shapes Sample.table_builder Sample.live_transport Sample.catalog
                Sample.one_table (JFun 1) None Sample.world0) as (_ & _ & Hhandle).
    exact (f_equal fst (Hhandle _ _ eq_refl)).
Defined.

(** Registering [user] again after the introspection passes. *)
Lemma createTable_replaces_witness :
  tables (createTable "user" "VIEW" Sample.introspected) !! "user"
  = Some (new_Table "user" "VIEW")
  /\ tables (createTable "posts" "VIEW" Sample.introspected) !! "user"
     = Some Sample.user_table.
Proof.
  split.
  - apply (createTable_replaces "user" "VIEW" Sample.introspected).
  - destruct (createTable_replaces "posts" "VIEW" Sample.introspected) as (_ & Hother & _).
    rewrite (Hother "user"); [by_evaluation | discriminate].
Defined.

(* ===================================================================== *)
(** ** Where the code departs from the specification *)
(* ===================================================================== *)

(** C4 as stated fails.  The flat setting sends [insert_user.returning]
    to [user.insert], and a segment of the endpoint path is missing from
    both responses below.  When [returning] is missing, the walk resolves
    to [undefined] and [mutate] returns a success pair; when
    [insert_user] is missing, the walk throws a [TypeError] that [mutate]
    does not catch.  In neither case is an error result returned. *)
Lemma missing_segment_is_not_an_error_result :
  (buildMutation Sample.mutation_builder Sample.catalog Sample.insert_user
   = Normal
       (mutation_document
          (composed_mutation
             [Sample.action_build "user" "insert"
                (JObj [("objects", JArr [JObj [("name", JStr "ann")]])])]),
        [("insert_user", JObj [("objects", JArr [JObj [("name", JStr "ann")]])])],
        [[("user.insert", "insert_user.returning")]]))
  /\ walk Sample.no_returning "insert_user.returning" = Normal JUndefined
  /\ (mutate Sample.mutation_builder (Sample.transport Sample.no_returning)
        Sample.catalog Sample.insert_user Sample.world0).1
     = Normal (JArr [JNull; JObj (objectFromPath [] "user.insert" JUndefined)])
  /\ walk Sample.no_insert_user "insert_user.returning" = Throw JTypeError
  /\ (mutate Sample.mutation_builder (Sample.transport Sample.no_insert_user)
        Sample.catalog Sample.insert_user Sample.world0).1
     = Throw JTypeError.
Proof. repeat split; by_evaluation. Qed.



(** C8 as stated fails.  The table [user] has a field and a primary key;
    after a second registration of [user] it has none. *)
Lemma createTable_drops_fields_and_key :
  tables Sample.introspected !! "user" = Some Sample.user_table
  /\ primaryKey Sample.user_table = ["id"]
  /\ (primaryKey <$> tables (createTable "user" "BASE TABLE" Sample.introspected) !! "user")
     = Some []
  /\ (fields <$> tables (createTable "user" "BASE TABLE" Sample.introspected) !! "user")
     = Some ∅
  /\ tables (createTable "user" "BASE TABLE" Sample.introspected) !! "user"
     <> tables Sample.introspected !! "user".
Proof.
  repeat split; try by_evaluation.
  intros Heq. apply (f_equal (fmap primaryKey)) in Heq. vm_compute in Heq. discriminate.
Qed.

(* ===================================================================== *)
(** ** Further properties: the constructor *)
(* ===================================================================== *)

Section ReplaceFacts.
Implicit Types (pattern replacement s rest : string).

Lemma starts_with_app pattern s : starts_with pattern (pattern +:+ s) = true.
Proof. induction pattern as [|a p IH]; simpl; [done|]. by rewrite Ascii.eqb_refl. Qed.

Lemma string_drop_app pattern s : string_drop (String.length pattern) (pattern +:+ s) = s.
Proof. induction pattern as [|a p IH]; simpl; [by destruct s | done]. Qed.

Lemma String_replace_prefix pattern replacement s :
  String_replace pattern replacement (pattern +:+ s) = replacement +:+ s.
Proof.
  destruct pattern as [|a p]; [by destruct s|].
  simpl. rewrite Ascii.eqb_refl, starts_with_app. simpl. by rewrite string_drop_app.
Qed.

Lemma String_replace_absent pattern replacement s :
  occurs pattern s = false -> String_replace pattern replacement s = s.
Proof.
  induction s as [|a s IH]; simpl.
  - by destruct (starts_with pattern "").
  - intros [-> Hs]%orb_false_elim. by rewrite IH.
Qed.

Lemma straddle_graphql x rest :
  starts_with "/v1/graphql" (x +:+ "/v1/graphql" +:+ rest) = true ->
  x <> "" -> starts_with "/v1/graphql" x = true.
Proof.
  intros H Hne.
  destruct x as [|c x]; [done|]. clear Hne.
  repeat (simpl in H |- *;
          first [ discriminate H
                | reflexivity
                | apply andb_prop in H as [-> H]; simpl; destruct x as [|? x] ]).
Qed.

Lemma String_replace_graphql base rest :
  occurs "/v1/graphql" base = false ->
  String_replace "/v1/graphql" "/v1/query" (base +:+ "/v1/graphql" +:+ rest)
  = base +:+ "/v1/query" +:+ rest.
Proof.
  induction base as [|a base IH]; intros Hocc.
  - reflexivity.
  - change (occurs "/v1/graphql" (String a base))
      with (starts_with "/v1/graphql" (String a base) || occurs "/v1/graphql" base) in Hocc.
    apply orb_false_elim in Hocc as [Hhere Hlater].
    change ((String a base) +:+ "/v1/graphql" +:+ rest)
      with (String a (base +:+ "/v1/graphql" +:+ rest)).
    unfold String_replace; fold String_replace.
    destruct (starts_with "/v1/graphql" (String a (base +:+ "/v1/graphql" +:+ rest))) eqn:Hs.
    + apply (straddle_graphql (String a base)) in Hs; [congruence | done].
    + by rewrite (IH Hlater).
Qed.

End ReplaceFacts.

(** X3 (web-socket address).  The default [wsUrl] of an address that
    starts with [http://] starts with [ws://], and that of an address
    that starts with [https://] starts with [wss://]; the other scheme is
    then rewritten at its first occurrence in the rest of the address, if
    it occurs there.  An address in which neither scheme occurs is its
    own default [wsUrl]. *)
Theorem default_wsUrl_scheme :
  (forall rest,
      default_wsUrl ("http://" +:+ rest)
      = "ws://" +:+ String_replace "https://" "wss://" rest)
  /\ (forall rest,
        default_wsUrl ("https://" +:+ rest)
        = "wss://" +:+ String_replace "http://" "ws://" rest)
  /\ (forall rest,
        occurs "https://" rest = false ->
        default_wsUrl ("http://" +:+ rest) = "ws://" +:+ rest)
  /\ (forall rest,
        occurs "http://" rest = false ->
        default_wsUrl ("https://" +:+ rest) = "wss://" +:+ rest)
  /\ (forall url,
        occurs "http://" url = false -> occurs "https://" url = false ->
        default_wsUrl url = url).
Proof.
  assert (forall rest,
            default_wsUrl ("http://" +:+ rest)
            = "ws://" +:+ String_replace "https://" "wss://" rest) as Hhttp
    by reflexivity.
  assert (forall rest,
            default_wsUrl ("https://" +:+ rest)
            = "wss://" +:+ String_replace "http://" "ws://" rest) as Hhttps
    by reflexivity.
  split; [exact Hhttp|]. split; [exact Hhttps|]. split; [|split].
  - intros rest Hrest. by rewrite Hhttp, String_replace_absent.
  - intros rest Hrest. by rewrite Hhttps, String_replace_absent.
  - intros url H1 H2. unfold default_wsUrl.
    by rewrite (String_replace_absent _ _ url H1), (String_replace_absent _ _ url H2).
Qed.

(** X4 (query address).  The default [queryUrl] replaces the first
    occurrence of [/v1/graphql] by [/v1/query] and keeps what follows,
    later occurrences included; an address without [/v1/graphql] is its
    own default [queryUrl]. *)
Theorem default_queryUrl_first_occurrence :
  (forall base rest,
      occurs "/v1/graphql" base = false ->
      default_queryUrl (base +:+ "/v1/graphql" +:+ rest) = base +:+ "/v1/query" +:+ rest)
  /\ (forall url, occurs "/v1/graphql" url = false -> default_queryUrl url = url).
Proof.
  split.
  - intros base rest Hbase. by apply String_replace_graphql.
  - intros url Hurl. by apply String_replace_absent.
Qed.

Lemma merged_params_object o k :
  NoDup (Object_keys o) ->
  obj_get (merged_params (JObj o)) k
  = match obj_get o k with Some v => Some v | None => obj_get defaultParams k end.
Proof.
  intros Hnd. unfold merged_params. simpl own_props.
  rewrite obj_get_assign, obj_get_reverse by done.
  destruct (obj_get o k); [done|].
  apply obj_get_assign_fresh. apply (bool_decide_unpack _). vm_compute. exact I.
Qed.

Lemma param_merged_default o k :
  NoDup (Object_keys o) -> k ∈ Object_keys defaultParams ->
  param (merged_params (JObj o)) k = default JNull (obj_get o k).
Proof.
  intros Hnd Hk. unfold param. rewrite merged_params_object by done.
  destruct (obj_get o k); [done|].
  vm_compute in Hk. 
  repeat (apply elem_of_cons in Hk as [->|Hk]; [reflexivity|]).
  by apply elem_of_nil in Hk.
Qed.



(** X2 (addresses of the instance).  After a successful construction,
    a truthy [queryUrl] or [wsUrl] of the configuration is kept as it is,
    a missing or falsy one is replaced by the address derived from
    [graphqlUrl], and every other key of [this.params] holds what the
    configuration gave it, or the default [null] of the four known keys. *)
Theorem new_Hasura_urls o this_params this url :
  NoDup (Object_keys o) ->
  new_Hasura (JObj o) = Normal (this_params, this) ->
  obj_get o "graphqlUrl" = Some (JStr url) ->
  param this_params "queryUrl"
    = (if truthy (default JNull (obj_get o "queryUrl"))
       then default JNull (obj_get o "queryUrl")
       else JStr (default_queryUrl url))
  /\ param this_params "wsUrl"
     = (if truthy (default JNull (obj_get o "wsUrl"))
        then default JNull (obj_get o "wsUrl")
        else JStr (default_wsUrl url))
  /\ forall k, k <> "queryUrl" -> k <> "wsUrl" ->
       obj_get this_params k
       = match obj_get o k with Some v => Some v | None => obj_get defaultParams k end.
Proof.
  intros Hnd Hnew Hurl. unfold new_Hasura in Hnew.
  rewrite !(param_merged_default o) in Hnew by (done || (vm_compute; set_solver)).
  rewrite Hurl in Hnew. simpl in Hnew.
  destruct (negb (negb (String.eqb url ""))); [done|].
  destruct (negb (truthy (default JNull (obj_get o "adminSecret")))); [done|].
  injection Hnew as <- _.
  set (given_q := default JNull (obj_get o "queryUrl")).
  set (given_w := default JNull (obj_get o "wsUrl")).
  assert (forall p, param (obj_set "queryUrl" p (merged_params (JObj o))) "wsUrl" = given_w) as Hw.
  { intros p. unfold param. rewrite obj_get_set_ne by done.
    apply (param_merged_default o); [done | vm_compute; set_solver]. }
  assert (param (merged_params (JObj o)) "wsUrl" = given_w) as Hw'
    by (apply (param_merged_default o); [done | vm_compute; set_solver]).
  assert (param (merged_params (JObj o)) "queryUrl" = given_q) as Hq'
    by (apply (param_merged_default o); [done | vm_compute; set_solver]).
  assert (forall p : Obj JsVal,
            (forall k, k <> "queryUrl" -> k <> "wsUrl" ->
               obj_get p k = obj_get (merged_params (JObj o)) k) ->
            forall k, k <> "queryUrl" -> k <> "wsUrl" ->
              obj_get p k
              = match obj_get o k with Some v => Some v | None => obj_get defaultParams k end)
    as Hrest.
  { intros p Hp k Hk1 Hk2. rewrite Hp by done. by apply merged_params_object. }
  destruct (truthy given_q) eqn:Hq; simpl; rewrite ?Hw, ?Hw';
    destruct (truthy given_w) eqn:Hgw; simpl; (split; [|split]).
  all: try (apply Hrest; intros k Hk1 Hk2; by rewrite ?obj_get_set_ne by done).
  all: unfold param in *;
    repeat (rewrite obj_get_set_eq || rewrite obj_get_set_ne by done); done.
Qed.

(* ===================================================================== *)
(** ** Further properties: the entry points *)
(* ===================================================================== *)

Section ForEachMore.
Context {A B S : Type}.
Variable f : S -> A -> Completion S.
Variable g : A -> Completion B.
Variable h : S -> B -> S.
Hypothesis f_body : forall s x, f s x = (b ← g x; mret (h s b)).

(** The loop throws what the first failing element throws. *)
Lemma forEach_first_throw pre x post bs e s :
  Forall2 (fun y b => g y = Normal b) pre bs ->
  g x = Throw e ->
  forEach f (pre ++ x :: post) s = Throw e.
Proof.
  intros Hpre Hx.
  rewrite forEach_app, (forEach_returns f g h f_body _ _ _ Hpre). simpl.
  by rewrite f_body, Hx.
Qed.

End ForEachMore.

(** X18 (walk through nested objects).  When following the segments of
    a dot-separated path through nested objects of the response leads to
    a value, the walk of [mutate] returns this value. *)
Theorem walk_nested o hasura_path v :
  path_lookup (split "." hasura_path) o = Some v ->
  walk (JObj o) hasura_path = Normal v.
Proof.
  unfold walk. generalize (split "." hasura_path) as segs. intros segs.
  revert o. induction segs as [|k [|k' rest] IH]; intros o; [done| |].
  - simpl. by intros ->.
  - rewrite path_lookup_cons.
    destruct (obj_get o k) as [[| | | | | |c| | |]|] eqn:Hk; try done.
    intros Hrest. change (forEach js_get (k :: k' :: rest) (JObj o))
      with (forEach js_get (k' :: rest) (default JUndefined (obj_get o k))).
    rewrite Hk. by apply IH.
Qed.

Ltac unfold_table_buildMutation := unfold table_buildMutation.

Section Further.
Variable Table_buildQuery : Table -> Obj JsVal -> Completion Built.
Variable Table_buildMutation : Table -> Obj JsVal -> Completion (list Built).
Variable gql : list GqlRequest -> GqlRequest -> Completion (JsVal * JsVal).
Variable ws : list WsRequest -> WsRequest -> Completion JsVal.

Local Abbreviation table_buildQuery := (table_buildQuery Table_buildQuery).
Local Abbreviation table_buildMutation := (table_buildMutation Table_buildMutation).
Local Abbreviation buildQuery := (buildQuery Table_buildQuery).
Local Abbreviation buildMutation := (buildMutation Table_buildMutation).
Local Abbreviation query := (query Table_buildQuery gql).
Local Abbreviation mutate := (mutate Table_buildMutation gql).
Local Abbreviation subscribe := (subscribe Table_buildQuery ws).

Implicit Types (this : Hasura) (params : Obj JsVal) (w : World).


Lemma buildMutation_first_throw this params pre tableName post builtss e :
  Object_keys params = pre ++ tableName :: post ->
  Forall2 (fun k b => table_buildMutation this params k = Normal b) pre builtss ->
  table_buildMutation this params tableName = Throw e ->
  buildMutation this params = Throw e.
Proof.
  intros Hkeys Hpre Hx. unfold_buildMutation. rewrite Hkeys.
  by rewrite (forEach_first_throw (buildMutation_each Table_buildMutation this params)
                (table_buildMutation this params) (foldl push_mutation_built)
                (fun _ _ => eq_refl) pre tableName post builtss e _ Hpre Hx).
Qed.



(** X14 (first failure of a mutation).  When the tables before
    [tableName] are built and the build of [tableName] throws [e],
    [mutate] returns [[e]] without calling the transport; when
    [tableName] is not in the catalog, [e] is a [TypeError], not the
    error of [table], because [buildMutation] reads [this.tables]
    directly. *)
Theorem mutate_first_failure this params w pre tableName post builtss :
  Object_keys params = pre ++ tableName :: post ->
  Forall2 (fun k b => table_buildMutation this params k = Normal b) pre builtss ->
  (forall e,
      table_buildMutation this params tableName = Throw e ->
      mutate this params w = (Normal (JArr [e]), w))
  /\ (tables this !! tableName = None ->
      mutate this params w = (Normal (JArr [JTypeError]), w)).
Proof.
  intros Hkeys Hpre.
  assert (forall e, table_buildMutation this params tableName = Throw e ->
                    mutate this params w = (Normal (JArr [e]), w)) as Hthrow.
  { intros e He. unfold_mutate.
    by rewrite (buildMutation_first_throw _ _ _ _ _ _ _ Hkeys Hpre He). }
  split; [done|].
  intros Hnone. apply Hthrow. unfold_table_buildMutation. by rewrite Hnone.
Qed.

(** X11 (requests sent).  [query] and [mutate] send one request, the
    compiled document with the merged variables, when the compilation
    succeeds, whatever the transport answers and whatever happens to the
    answer, and none when the compilation throws; they never open a
    subscription.  [subscribe] opens one live session when the
    compilation succeeds and none otherwise, and never sends a request. *)
Theorem requests_sent this params callback opts w :
  (query this params opts w).2
  = match buildQuery this params "query" with
    | Normal (doc, vars) => gql_sent {| gql_query := doc; gql_variables := vars |} w
    | Throw _ => w
    end
  /\ (mutate this params w).2
     = match buildMutation this params with
       | Normal (doc, vars, _) => gql_sent {| gql_query := doc; gql_variables := vars |} w
       | Throw _ => w
       end
  /\ (subscribe this params callback opts w).2
     = match buildQuery this params "subscription" with
       | Normal (doc, vars) =>
           ws_sent {| ws_query := doc; ws_variables := vars; ws_callback := callback;
                      ws_flatOne :=
                        if (length (Object_keys params) =? 1)%nat
                           && truthy (opt_flatOne opts)
                        then JStr (first_key (Object_keys params)) else JBool false |} w
       | Throw _ => w
       end.
Proof.
  split; [|split].
  - unfold_query. destruct (buildQuery this params "query") as [[doc vars]|e]; [|done].
    unfold mbind, M_bind, gql_run, lift.
    destruct (gql _ _) as [[err response]|e]; [|done].
    destruct (truthy err); [done|].
    destruct (_ && _); [|done]. by destruct (js_get _ _).
  - unfold_mutate. destruct (buildMutation this params) as [[[doc vars] fs]|e]; [|done].
    unfold mbind, M_bind, gql_run, lift.
    destruct (gql _ _) as [[err response]|e]; [|done].
    destruct (truthy err); [done|]. by destruct (forEach _ _ _).
  - unfold_subscribe.
    by destruct (buildQuery this params "subscription") as [[doc vars]|e].
Qed.


(** [query] once the document is compiled and the transport has answered. *)
Lemma query_after_transport this params opts w doc vars err response :
  buildQuery this params "query" = Normal (doc, vars) ->
  gql (gql_calls w) {| gql_query := doc; gql_variables := vars |}
    = Normal (err, response) ->
  truthy err = false ->
  query this params opts w
  = (if (length (Object_keys params) =? 1)%nat && truthy (opt_flatOne opts)
     then v ← js_get response (first_key (Object_keys params)); mret (JArr [JNull; v])
     else Normal (JArr [JNull; response]),
     gql_sent {| gql_query := doc; gql_variables := vars |} w).
Proof.
  intros Hbuild Hgql Herr. unfold_query. rewrite Hbuild.
  unfold mbind at 1. unfold M_bind, gql_run. rewrite Hgql, Herr.
  destruct (_ && _); [|done].
  unfold mbind at 1. unfold M_bind, lift. by destruct (js_get _ _).
Qed.

(** X12 (failure of the transport).  When the transport answers with a
    truthy [err], [query] and [mutate] return [[err]]: the response is
    neither flattened nor remapped.  When the transport throws, so do
    [query] and [mutate]: the exception is not turned into a result. *)
Theorem transport_failure this params opts w :
  (forall doc vars,
      buildQuery this params "query" = Normal (doc, vars) ->
      let req := {| gql_query := doc; gql_variables := vars |} in
      (forall err response,
          gql (gql_calls w) req = Normal (err, response) -> truthy err = true ->
          query this params opts w = (Normal (JArr [err]), gql_sent req w))
      /\ (forall e,
            gql (gql_calls w) req = Throw e ->
            query this params opts w = (Throw e, gql_sent req w)))
  /\ (forall doc vars flatSettings,
        buildMutation this params = Normal (doc, vars, flatSettings) ->
        let req := {| gql_query := doc; gql_variables := vars |} in
        (forall err response,
            gql (gql_calls w) req = Normal (err, response) -> truthy err = true ->
            mutate this params w = (Normal (JArr [err]), gql_sent req w))
        /\ (forall e,
              gql (gql_calls w) req = Throw e ->
              mutate this params w = (Throw e, gql_sent req w))).
Proof.
  split.
  - intros doc vars Hbuild req. split.
    + intros err response Hgql Herr. unfold_query. rewrite Hbuild.
      unfold mbind, M_bind, gql_run. fold req. by rewrite Hgql, Herr.
    + intros e Hgql. unfold_query. rewrite Hbuild.
      unfold mbind, M_bind, gql_run. fold req. by rewrite Hgql.
  - intros doc vars flatSettings Hbuild req. split.
    + intros err response Hgql Herr. unfold_mutate. rewrite Hbuild.
      unfold mbind at 1. unfold M_bind, gql_run. fold req. by rewrite Hgql, Herr.
    + intros e Hgql. unfold_mutate. rewrite Hbuild.
      unfold mbind at 1. unfold M_bind, gql_run. fold req. by rewrite Hgql.
Qed.

(** X15 (no flattening).  A successful [query] returns the whole
    response when the option [flatOne] is given a falsy value other than
    [undefined] ([false], [0], [null], the empty string), or when [params]
    has no key.  An explicit [flatOne: undefined] is replaced by the
    default [true]: with one table the response is flattened. *)
Theorem query_not_flattened this params opts w doc vars err response :
  buildQuery this params "query" = Normal (doc, vars) ->
  gql (gql_calls w) {| gql_query := doc; gql_variables := vars |}
    = Normal (err, response) ->
  truthy err = false ->
  let whole :=
    (Normal (JArr [JNull; response]),
     gql_sent {| gql_query := doc; gql_variables := vars |} w) in
  (forall o v,
      opts = Some o -> obj_get o "flatOne" = Some v -> v <> JUndefined ->
      truthy v = false ->
      query this params opts w = whole)
  /\ (Object_keys params = [] -> query this params opts w = whole)
  /\ (forall o tableName,
        opts = Some o -> obj_get o "flatOne" = Some JUndefined ->
        Object_keys params = [tableName] ->
        query this params opts w
        = (v ← js_get response tableName; mret (JArr [JNull; v]),
           gql_sent {| gql_query := doc; gql_variables := vars |} w)).
Proof.
  intros Hbuild Hgql Herr whole. subst whole.
  rewrite (query_after_transport _ _ _ _ _ _ _ _ Hbuild Hgql Herr).
  split; [|split].
  - intros o v -> Hv Hdef Hfalsy. simpl. rewrite Hv.
    assert (match v with JUndefined => JBool true | _ => v end = v) as ->
      by by destruct v.
    by rewrite Hfalsy, andb_false_r.
  - by intros ->.
  - intros o tableName -> Hv ->. simpl. by rewrite Hv.
Qed.

(** X16 (reading the table out of the response).  With one table and a
    truthy [flatOne], once the transport has answered without error:
    an [undefined] or [null] response makes [query] throw a [TypeError]
    (the request has been sent); a response object without the key gives
    [[null, undefined]]; a response object with the key gives its value. *)
Theorem query_flattened_read this params opts w doc vars err response tableName :
  buildQuery this params "query" = Normal (doc, vars) ->
  gql (gql_calls w) {| gql_query := doc; gql_variables := vars |}
    = Normal (err, response) ->
  truthy err = false ->
  Object_keys params = [tableName] ->
  truthy (opt_flatOne opts) = true ->
  let sent := gql_sent {| gql_query := doc; gql_variables := vars |} w in
  (response = JUndefined \/ response = JNull ->
   query this params opts w = (Throw JTypeError, sent))
  /\ (forall o,
        response = JObj o -> obj_get o tableName = None ->
        query this params opts w = (Normal (JArr [JNull; JUndefined]), sent))
  /\ (forall o v,
        response = JObj o -> obj_get o tableName = Some v ->
        query this params opts w = (Normal (JArr [JNull; v]), sent)).
Proof.
  intros Hbuild Hgql Herr Hkeys Hflat sent. subst sent.
  rewrite (query_after_transport _ _ _ _ _ _ _ _ Hbuild Hgql Herr), Hkeys, Hflat.
  simpl. change (first_key [tableName]) with tableName.
  split; [|split].
  - by intros [-> | ->].
  - intros o -> Hnone. simpl. by rewrite Hnone.
  - intros o v -> Hsome. simpl. by rewrite Hsome.
Qed.

(** X17 (failure of the remapping).  Once the mutation is compiled and
    the transport has answered without error, if the flat settings before
    [flat] are resolved, [mutate] throws (it returns no result although
    the request has been sent): a [TypeError] when [flat] has no entry,
    what the walk of its endpoint path throws otherwise, which is a
    [TypeError] when a segment other than the last is missing. *)
Theorem mutate_remap_failure this params w doc vars flatSettings err response
    pre flat post writes :
  buildMutation this params = Normal (doc, vars, flatSettings) ->
  gql (gql_calls w) {| gql_query := doc; gql_variables := vars |}
    = Normal (err, response) ->
  truthy err = false ->
  flatSettings = pre ++ flat :: post ->
  remap_writes response pre writes ->
  let sent := gql_sent {| gql_query := doc; gql_variables := vars |} w in
  (Object_entries flat = [] -> mutate this params w = (Throw JTypeError, sent))
  /\ (forall request_path hasura_path more e,
        Object_entries flat = (request_path, hasura_path) :: more ->
        walk response hasura_path = Throw e ->
        mutate this params w = (Throw e, sent))
  /\ (forall request_path hasura_path more parents k k' rest o,
        Object_entries flat = (request_path, hasura_path) :: more ->
        split "." hasura_path = parents ++ k :: k' :: rest ->
        forEach js_get parents response = Normal (JObj o) ->
        obj_get o k = None ->
        mutate this params w = (Throw JTypeError, sent)).
Proof.
  intros Hbuild Hgql Herr -> Hpre sent. subst sent.
  assert (forall e, remap_each response (remapped writes) flat = Throw e ->
            mutate this params w
            = (Throw e, gql_sent {| gql_query := doc; gql_variables := vars |} w))
    as Hthrow.
  { intros e He.
    apply (mutate_remap_throw _ _ _ _ _ _ _ _ _ _ _ Hbuild Hgql Herr).
    rewrite forEach_app, (remap_returns _ _ _ Hpre). simpl. by rewrite He. }
  assert (forall request_path hasura_path more e,
            Object_entries flat = (request_path, hasura_path) :: more ->
            walk response hasura_path = Throw e ->
            mutate this params w
            = (Throw e, gql_sent {| gql_query := doc; gql_variables := vars |} w))
    as Hwalk.
  { intros rp hp more e Hflat Hw. apply Hthrow. unfold remap_each.
    rewrite Hflat. simpl. by rewrite Hw. }
  split; [|split].
  - intros Hempty. apply Hthrow. unfold remap_each. by rewrite Hempty.
  - exact Hwalk.
  - intros rp hp more parents k k' rest o Hflat Hsplit Hparents Hk.
    apply (Hwalk rp hp more JTypeError Hflat).
    by apply (walk_missing_inner response hp parents k k' rest o).
Qed.

(** X19 (empty request).  With no table at all, [buildQuery] and
    [buildMutation] still return a document, with an empty operation
    name and an empty body (and [()] for the mutation) and without
    variables; [query] and [mutate] send it and return the whole response
    and the empty object. *)
Theorem empty_request this w :
  (forall queryType,
      buildQuery this [] queryType
      = Normal (nl +:+ indent12 +:+
                nl +:+ indent12 +:+ queryType +:+ "   {" +:+
                nl +:+ indent16 +:+
                nl +:+ indent12 +:+ "}" +:+
                nl +:+ indent8, []))
  /\ buildMutation this []
     = Normal (nl +:+ indent12 +:+
               nl +:+ indent12 +:+ "mutation  () {" +:+
               nl +:+ indent16 +:+
               nl +:+ indent12 +:+ "}" +:+
               nl +:+ indent8, [], [])
  /\ (forall opts doc vars response,
        buildQuery this [] "query" = Normal (doc, vars) ->
        gql (gql_calls w) {| gql_query := doc; gql_variables := vars |}
          = Normal (JNull, response) ->
        query this [] opts w
        = (Normal (JArr [JNull; response]),
           gql_sent {| gql_query := doc; gql_variables := vars |} w))
  /\ (forall doc vars flatSettings response,
        buildMutation this [] = Normal (doc, vars, flatSettings) ->
        gql (gql_calls w) {| gql_query := doc; gql_variables := vars |}
          = Normal (JNull, response) ->
        mutate this [] w
        = (Normal (JArr [JNull; JObj []]),
           gql_sent {| gql_query := doc; gql_variables := vars |} w)).
Proof.
  split; [|split; [|split]].
  - intros queryType. reflexivity.
  - reflexivity.
  - intros opts doc vars response Hbuild Hgql.
    by rewrite (query_after_transport _ _ _ _ _ _ _ _ Hbuild Hgql eq_refl).
  - intros doc vars flatSettings response Hbuild Hgql.
    rewrite (mutate_after_transport _ _ _ _ _ _ _ _ _ _ Hbuild Hgql eq_refl).
    by injection Hbuild as _ _ <-.
Qed.

End Further.

(* ===================================================================== *)
(** ** Further properties: the introspection passes *)
(* ===================================================================== *)

Ltac unfold_init := unfold init.

Section ForEachMutFacts.
Context {A S : Type}.
Variable f : S -> A -> Completion () * S.


(** What every step preserves, the loop preserves, however it ends. *)
Lemma forEach_mut_preserves (P : S -> Prop) l s :
  (forall s x, P s -> P (f s x).2) -> P s -> P (forEach_mut f l s).2.
Proof.
  intros Hstep. revert s. induction l as [|x l IH]; intros s Hs; simpl; [done|].
  specialize (Hstep s x Hs). destruct (f s x) as [[[]|e] s']; [by apply IH | done].
Qed.

End ForEachMutFacts.

Section RegistryFacts.
Implicit Types (this : Hasura) (rows : list TableRow).

Lemma call_table_flag name method this :
  INITIATED (call_table name method this).2 = INITIATED this.
Proof.
  unfold call_table. destruct (table this name) as [t|e]; [|done].
  by destruct (method t).
Qed.

Lemma call_table_lookup name method this k :
  is_Some (tables (call_table name method this).2 !! k) <-> is_Some (tables this !! k).
Proof.
  unfold call_table, table.
  destruct (tables this !! name) as [t|] eqn:Hname; [|done].
  destruct (method t) as [r t']. simpl.
  destruct (decide (name = k)) as [<-|Hne].
  - rewrite lookup_insert_eq, Hname. split; eauto.
  - by rewrite lookup_insert_ne.
Qed.

(** A method call depends on the flag [INITIATED] in no way. *)
Lemma call_table_tables name method T b b' :
  call_table name method {| tables := T; INITIATED := b' |}
  = ((call_table name method {| tables := T; INITIATED := b |}).1,
     {| tables := tables (call_table name method {| tables := T; INITIATED := b |}).2;
        INITIATED := b' |}).
Proof.
  unfold call_table, table. simpl.
  destruct (T !! name) as [t|]; [|done]. by destruct (method t).
Qed.

Lemma registered_snoc rows row this :
  registered (rows ++ [row]) this
  = createTable (tables_table_name row) (tables_table_type row) (registered rows this).
Proof. unfold registered. by rewrite foldl_snoc. Qed.

Lemma registered_flag rows this : INITIATED (registered rows this) = INITIATED this.
Proof.
  induction rows as [|row rows IH] using rev_ind; [done|].
  by rewrite registered_snoc.
Qed.

Lemma registered_lookup rows this k :
  tables (registered rows this) !! k
  = match last (filter (fun row => tables_table_name row = k) rows) with
    | Some row => Some (new_Table k (tables_table_type row))
    | None => tables this !! k
    end.
Proof.
  induction rows as [|row rows IH] using rev_ind; [done|].
  rewrite registered_snoc, filter_app, last_app, filter_cons, filter_nil. simpl.
  case_decide as Hk.
  - subst k. simpl. by rewrite lookup_insert_eq.
  - simpl. by rewrite lookup_insert_ne.
Qed.

Lemma registered_is_Some rows this k :
  is_Some (tables (registered rows this) !! k)
  <-> is_Some (tables this !! k) \/ k ∈ tables_table_name <$> rows.
Proof.
  rewrite registered_lookup.
  destruct (last _) as [row|] eqn:Hlast.
  - apply last_Some_elem_of, list_elem_of_filter in Hlast as [<- Hin].
    split; [intros _; right | eauto].
    apply list_elem_of_fmap. by exists row.
  - apply last_None in Hlast. split; [by left|].
    intros [?|Hin]; [done|]. exfalso.
    apply list_elem_of_fmap in Hin as (row & -> & Hin).
    assert (row ∈ filter (fun row' => tables_table_name row' = tables_table_name row) rows)
      as Hf by by apply list_elem_of_filter.
    rewrite Hlast in Hf. by apply elem_of_nil in Hf.
Qed.

(** The rows decide the tables they name, whatever was registered. *)
Lemma registered_tables rows this this' :
  (forall k, k ∉ tables_table_name <$> rows -> tables this !! k = tables this' !! k) ->
  tables (registered rows this) = tables (registered rows this').
Proof.
  intros Hrest. apply map_eq. intros k. rewrite !registered_lookup.
  destruct (last _) as [row|] eqn:Hlast; [done|].
  apply Hrest. intros Hin.
  apply last_None in Hlast.
  apply list_elem_of_fmap in Hin as (row & -> & Hin).
  assert (row ∈ filter (fun row' => tables_table_name row' = tables_table_name row) rows)
    as Hf by by apply list_elem_of_filter.
  rewrite Hlast in Hf. by apply elem_of_nil in Hf.
Qed.

End RegistryFacts.

Section InitFacts.
Variable sql_tables : Completion (JsVal * list TableRow).
Variable sql_columns : Completion (JsVal * list ColumnRow).
Variable sql_keys : Completion (JsVal * list PrimaryKeyRow).
Variable Table_setField : Field -> Table -> Completion () * Table.
Variable Table_setPrimarykey : string -> Z -> Table -> Completion () * Table.
Variable Table_init : Table -> Completion () * Table.
Variable tables_keys : gmap string Table -> list string.

Local Abbreviation setField_each := (setField_each Table_setField).
Local Abbreviation setPrimarykey_each := (setPrimarykey_each Table_setPrimarykey).
Local Abbreviation init_each := (init_each Table_init).
Local Abbreviation init :=
  (init sql_tables sql_columns sql_keys Table_setField Table_setPrimarykey Table_init
     tables_keys).

Implicit Types (w : Introspection) (this : Hasura).

Lemma forEach_mut_createTable rows this :
  forEach_mut createTable_each rows this = (Normal (), registered rows this).
Proof.
  unfold registered. revert this.
  induction rows as [|row rows IH]; intros this; simpl; [done | apply IH].
Qed.

(** [init], stage by stage. *)
Lemma init_stages w :
  init w =
  match sql_tables with
  | Throw e => (Throw e, init_sent [TablesStatement] (init_this w) w)
  | Normal (err, rows) =>
    if truthy err then (Throw err, init_sent [TablesStatement] (init_this w) w)
    else
      let this1 := registered rows (init_this w) in
      match sql_columns with
      | Throw e => (Throw e, init_sent [TablesStatement; ColumnsStatement] this1 w)
      | Normal (err, columns) =>
        if truthy err
        then (Throw err, init_sent [TablesStatement; ColumnsStatement] this1 w)
        else
          match forEach_mut setField_each columns this1 with
          | (Throw e, this2) =>
              (Throw e, init_sent [TablesStatement; ColumnsStatement] this2 w)
          | (Normal _, this2) =>
            match sql_keys with
            | Throw e =>
                (Throw e,
                 init_sent [TablesStatement; ColumnsStatement; PrimaryKeysStatement] this2 w)
            | Normal (err, keys) =>
              if truthy err
              then (Throw err,
                    init_sent [TablesStatement; ColumnsStatement; PrimaryKeysStatement] this2 w)
              else
                match forEach_mut setPrimarykey_each keys this2 with
                | (Throw e, this3) =>
                    (Throw e,
                     init_sent [TablesStatement; ColumnsStatement; PrimaryKeysStatement]
                       this3 w)
                | (Normal _, this3) =>
                  match forEach_mut init_each (tables_keys (tables this3)) this3 with
                  | (Throw e, this4) =>
                      (Throw e,
                       init_sent [TablesStatement; ColumnsStatement; PrimaryKeysStatement]
                         this4 w)
                  | (Normal _, this4) =>
                      (Normal (),
                       init_sent [TablesStatement; ColumnsStatement; PrimaryKeysStatement]
                         {| tables := tables this4; INITIATED := true |} w)
                  end
                end
            end
          end
      end
  end.
Proof.
  unfold_init. unfold mbind, MI_bind, sql_run, on_this, throw, mret, MI_ret, init_sent.
  destruct sql_tables as [[err1 rows]|e1]; simpl; [|done].
  destruct (truthy err1); simpl; [done|].
  rewrite forEach_mut_createTable. simpl.
  destruct sql_columns as [[err2 columns]|e2]; simpl; [|by rewrite <- app_assoc].
  destruct (truthy err2); simpl; [by rewrite <- app_assoc|].
  destruct (forEach_mut _ columns _) as [[[]|e] this2]; simpl;
    [|by rewrite <- app_assoc].
  destruct sql_keys as [[err3 keys]|e3]; simpl; [|by rewrite <- !app_assoc].
  destruct (truthy err3); simpl; [by rewrite <- !app_assoc|].
  destruct (forEach_mut _ keys _) as [[[]|e] this3]; simpl;
    [|by rewrite <- !app_assoc].
  destruct (forEach_mut _ (tables_keys _) _) as [[[]|e] this4]; simpl;
    by rewrite <- !app_assoc.
Qed.

Lemma stage_flag {X} (step : Hasura -> X -> Completion () * Hasura) l this :
  (forall this x, INITIATED (step this x).2 = INITIATED this) ->
  INITIATED (forEach_mut step l this).2 = INITIATED this.
Proof.
  intros Hstep.
  apply (forEach_mut_preserves step (fun s => INITIATED s = INITIATED this)); [|done].
  intros s x <-. apply Hstep.
Qed.

Lemma stage_lookup {X} (step : Hasura -> X -> Completion () * Hasura) l this k :
  (forall this x, is_Some (tables (step this x).2 !! k) <-> is_Some (tables this !! k)) ->
  is_Some (tables (forEach_mut step l this).2 !! k) <-> is_Some (tables this !! k).
Proof.
  intros Hstep.
  apply (forEach_mut_preserves step
           (fun s => is_Some (tables s !! k) <-> is_Some (tables this !! k))); [|done].
  intros s x <-. apply Hstep.
Qed.

Lemma setField_stage columns this :
  INITIATED (forEach_mut setField_each columns this).2 = INITIATED this
  /\ forall k, is_Some (tables (forEach_mut setField_each columns this).2 !! k)
               <-> is_Some (tables this !! k).
Proof.
  split; [apply stage_flag | intros k; apply stage_lookup]; intros s x;
    [apply call_table_flag | apply call_table_lookup].
Qed.

Lemma setPrimarykey_stage keys this :
  INITIATED (forEach_mut setPrimarykey_each keys this).2 = INITIATED this
  /\ forall k, is_Some (tables (forEach_mut setPrimarykey_each keys this).2 !! k)
               <-> is_Some (tables this !! k).
Proof.
  split; [apply stage_flag | intros k; apply stage_lookup]; intros s x;
    [apply call_table_flag | apply call_table_lookup].
Qed.

Lemma init_each_stage names this :
  INITIATED (forEach_mut init_each names this).2 = INITIATED this
  /\ forall k, is_Some (tables (forEach_mut init_each names this).2 !! k)
               <-> is_Some (tables this !! k).
Proof.
  split; [apply stage_flag | intros k; apply stage_lookup]; intros s x;
    [apply call_table_flag | apply call_table_lookup].
Qed.


(** X7 (failure of a statement).  When the answer to the tables
    statement is an exception or an error, [init] throws it, has sent
    nothing else and has not touched the instance.  When the answer to the
    columns statement is an error, [init] throws it after the tables of
    the first answer have been registered; the primary-key statement is
    not sent. *)
Theorem init_transport_error w :
  (forall e, sql_tables = Throw e ->
     init w = (Throw e, init_sent [TablesStatement] (init_this w) w))
  /\ (forall err rows,
        sql_tables = Normal (err, rows) -> truthy err = true ->
        init w = (Throw err, init_sent [TablesStatement] (init_this w) w))
  /\ (forall err1 rows err columns,
        sql_tables = Normal (err1, rows) -> truthy err1 = false ->
        sql_columns = Normal (err, columns) -> truthy err = true ->
        init w
        = (Throw err,
           init_sent [TablesStatement; ColumnsStatement] (registered rows (init_this w)) w)).
Proof.
  split; [|split].
  - intros e He. by rewrite init_stages, He.
  - intros err rows Ht Herr. by rewrite init_stages, Ht, Herr.
  - intros err1 rows err columns Ht Herr1 Hc Herr.
    by rewrite init_stages, Ht, Herr1, Hc, Herr.
Qed.



(** X9 (tables after [init]).  When [init] returns, the registered names
    are those registered before together with those listed by the tables
    statement, and [table] finds every listed table. *)
Theorem init_registers w err rows :
  sql_tables = Normal (err, rows) ->
  (init w).1 = Normal () ->
  (forall k, is_Some (tables (init_this (init w).2) !! k)
             <-> is_Some (tables (init_this w) !! k) \/ k ∈ tables_table_name <$> rows)
  /\ (forall row, row ∈ rows ->
        exists t, table (init_this (init w).2) (tables_table_name row) = Normal t).
Proof.
  intros Ht Hret.
  assert (forall k, is_Some (tables (init_this (init w).2) !! k)
             <-> is_Some (tables (init_this w) !! k) \/ k ∈ tables_table_name <$> rows)
    as Hdom.
  { intros k. revert Hret. rewrite init_stages, Ht.
    destruct (truthy err); [done|]. cbv zeta.
    destruct sql_columns as [[err2 columns]|e2]; [|done].
    destruct (truthy err2); [done|].
    pose proof (setField_stage columns (registered rows (init_this w))) as [_ H2].
    destruct (forEach_mut setField_each columns _) as [[[]|e] this2]; [|done].
    destruct sql_keys as [[err3 keys]|e3]; [|done].
    destruct (truthy err3); [done|].
    pose proof (setPrimarykey_stage keys this2) as [_ H3].
    destruct (forEach_mut setPrimarykey_each keys _) as [[[]|e] this3]; [|done].
    pose proof (init_each_stage (tables_keys (tables this3)) this3) as [_ H4].
    destruct (forEach_mut init_each _ _) as [[[]|e] this4]; [|done].
    intros _. simpl in *. by rewrite H4, H3, H2, registered_is_Some. }
  split; [done|].
  intros row Hrow.
  assert (is_Some (tables (init_this (init w).2) !! tables_table_name row)) as [t Ht'].
  { apply Hdom. right. apply list_elem_of_fmap. by exists row. }
  exists t. unfold table. by rewrite Ht'.
Qed.

Lemma forEach_mut_call_table_tables {X} (step : Hasura -> X -> Completion () * Hasura)
    (name_of : X -> string) (method_of : X -> Table -> Completion () * Table) l s s' :
  (forall this x, step this x = call_table (name_of x) (method_of x) this) ->
  tables s = tables s' ->
  forEach_mut step l s'
  = ((forEach_mut step l s).1,
     {| tables := tables (forEach_mut step l s).2; INITIATED := INITIATED s' |}).
Proof.
  intros Hstep. revert s s'. induction l as [|x l IH]; intros s s' Heq; simpl.
  - destruct s'. simpl in *. by rewrite Heq.
  - rewrite !Hstep. destruct s as [T b], s' as [T' b']. simpl in Heq. subst T'.
    rewrite (call_table_tables _ _ T b b').
    destruct (call_table (name_of x) (method_of x) {| tables := T; INITIATED := b |})
      as [[[]|e] s1]; simpl; [|done].
    by rewrite (IH s1 {| tables := tables s1; INITIATED := b' |}).
Qed.

(** X10 (running [init] again).  On an instance without tables, when
    [init] returns, running it again with the same answers returns too and
    leaves the instance as the first run left it. *)
Theorem init_again w w1 :
  tables (init_this w) = ∅ ->
  init w = (Normal (), w1) ->
  init w1
  = (Normal (),
     init_sent [TablesStatement; ColumnsStatement; PrimaryKeysStatement] (init_this w1) w1).
Proof.
  intros Hfresh Hfirst.
  rewrite init_stages in Hfirst. rewrite init_stages.
  destruct sql_tables as [[err1 rows]|e1]; [|done].
  destruct (truthy err1); [done|]. cbv zeta in *.
  destruct sql_columns as [[err2 columns]|e2]; [|done].
  destruct (truthy err2); [done|].
  pose proof (setField_stage columns (registered rows (init_this w))) as [_ L2].
  destruct (forEach_mut setField_each columns (registered rows (init_this w)))
    as [[[]|e] this2] eqn:H2; [|done].
  destruct sql_keys as [[err3 keys]|e3]; [|done].
  destruct (truthy err3); [done|].
  pose proof (setPrimarykey_stage keys this2) as [_ L3].
  destruct (forEach_mut setPrimarykey_each keys this2) as [[[]|e] this3] eqn:H3; [|done].
  pose proof (init_each_stage (tables_keys (tables this3)) this3) as [_ L4].
  destruct (forEach_mut init_each (tables_keys (tables this3)) this3)
    as [[[]|e] this4] eqn:H4; [|done].
  injection Hfirst as <-. simpl in *.
  set (this1 := registered rows (init_this w)) in *.
  set (this1' := registered rows {| tables := tables this4; INITIATED := true |}).
  assert (tables this1 = tables this1') as Htables.
  { apply registered_tables. intros k Hk. rewrite Hfresh, lookup_empty.
    symmetry. apply eq_None_not_Some. simpl.
    rewrite L4, L3, L2. unfold this1. rewrite registered_is_Some, Hfresh, lookup_empty.
    intros [[? [=]]|?]; done. }
  assert (INITIATED this1' = true) as Hflag by apply registered_flag.
  rewrite (forEach_mut_call_table_tables setField_each columns_table_name
             (fun row => Table_setField {| field_name := column_name row;
                                           logicalType := data_type row;
                                           nativeType := udt_name row |})
             columns this1 this1' (fun _ _ => eq_refl) Htables), H2, Hflag.
  simpl.
  rewrite (forEach_mut_call_table_tables setPrimarykey_each keys_table_name
             (fun row => Table_setPrimarykey (key_column row) (position row))
             keys this2 {| tables := tables this2; INITIATED := true |}
             (fun _ _ => eq_refl) eq_refl), H3.
  simpl.
  rewrite (forEach_mut_call_table_tables init_each (fun name => name)
             (fun _ => Table_init)
             (tables_keys (tables this3)) this3
             {| tables := tables this3; INITIATED := true |}
             (fun _ _ => eq_refl) eq_refl), H4.
  done.
Qed.

End InitFacts.

(* ===================================================================== *)
(** ** The further properties at work on the examples *)
(* ===================================================================== *)

Ltac decided := apply (bool_decide_unpack _); vm_compute; exact I.


(** The addresses derived from [http://localhost:8080/v1/graphql]. *)
Lemma new_Hasura_urls_witness :
  match new_Hasura (JObj Scenario.config_object) with
  | Normal (this_params, _) =>
      param this_params "queryUrl" = JStr "http://localhost:8080/v1/query" /\
      param this_params "wsUrl" = JStr "ws://localhost:8080/v1/graphql" /\
      obj_get this_params "adminSecret" = Some (JStr "secret")
  | Throw _ => False
  end.
Proof.
  destruct (new_Hasura (JObj Scenario.config_object)) as [[p this]|e] eqn:Hnew.
  - destruct (new_Hasura_urls Scenario.config_object p this
                "http://localhost:8080/v1/graphql" ltac:(decided) Hnew eq_refl)
      as (Hq & Hw & Hrest).
    split; [exact Hq | split; [exact Hw|]].
    rewrite (Hrest "adminSecret"); [reflexivity | discriminate | discriminate].
  - vm_compute in Hnew. discriminate Hnew.
Defined.

Lemma default_wsUrl_scheme_witness :
  default_wsUrl "https://hasura.example.com/v1/graphql"
  = "wss://hasura.example.com/v1/graphql".
Proof.
  destruct default_wsUrl_scheme as (_ & _ & _ & Hhttps & _).
  apply (Hhttps "hasura.example.com/v1/graphql"). reflexivity.
Defined.

Lemma default_queryUrl_first_occurrence_witness :
  default_queryUrl "http://localhost:8080/v1/graphql/v1/graphql"
  = "http://localhost:8080/v1/query/v1/graphql".
Proof.
  destruct default_queryUrl_first_occurrence as [Hfirst _].
  apply (Hfirst "http://localhost:8080" "/v1/graphql"). reflexivity.
Defined.


(** The tables statement is refused, then the columns statement. *)
Lemma init_transport_error_witness :
  Scenario.init_with Scenario.tables_refused Scenario.columns_answer Scenario.keys_answer
    Scenario.fresh
  = (Throw Scenario.refused,
     init_sent [TablesStatement] (init_this Scenario.fresh) Scenario.fresh)
  /\ (Scenario.init_with Scenario.tables_answer Scenario.columns_refused
        Scenario.keys_answer Scenario.fresh).1
     = Throw Scenario.refused.
Proof.
  split.
  - destruct (init_transport_error Scenario.tables_refused Scenario.columns_answer
                Scenario.keys_answer Scenario.setField Scenario.setPrimarykey
                Scenario.finalize Scenario.keys Scenario.fresh) as (_ & Htables & _).
    apply (Htables Scenario.refused []); reflexivity.
  - destruct (init_transport_error Scenario.tables_answer Scenario.columns_refused
                Scenario.keys_answer Scenario.setField Scenario.setPrimarykey
                Scenario.finalize Scenario.keys Scenario.fresh) as (_ & _ & Hcolumns).
    refine (f_equal fst (Hcolumns JNull _ Scenario.refused [] eq_refl eq_refl eq_refl eq_refl)).
Defined.


(** The tables [user] and [post] are found after [init]. *)
Lemma init_registers_witness :
  exists t,
    table (init_this (Scenario.init_with Scenario.tables_answer Scenario.columns_answer
                        Scenario.keys_answer Scenario.fresh).2) "post"
    = Normal t.
Proof.
  destruct (init_registers Scenario.tables_answer Scenario.columns_answer
              Scenario.keys_answer Scenario.setField Scenario.setPrimarykey
              Scenario.finalize Scenario.keys Scenario.fresh JNull _ eq_refl)
    as [_ Hfound]; [by_evaluation|].
  apply (Hfound {| tables_table_name := "post"; tables_table_type := "BASE TABLE" |}).
  repeat constructor.
Defined.

(** Two runs of [init] in a row. *)
Lemma init_again_witness :
  init_this
    (Scenario.init_with Scenario.tables_answer Scenario.columns_answer Scenario.keys_answer
       (Scenario.init_with Scenario.tables_answer Scenario.columns_answer
          Scenario.keys_answer Scenario.fresh).2).2
  = init_this
      (Scenario.init_with Scenario.tables_answer Scenario.columns_answer
         Scenario.keys_answer Scenario.fresh).2.
Proof.
  refine (f_equal (fun r => init_this r.2)
            (init_again Scenario.tables_answer Scenario.columns_answer Scenario.keys_answer
               Scenario.setField Scenario.setPrimarykey Scenario.finalize Scenario.keys
               Scenario.fresh
               (Scenario.init_with Scenario.tables_answer Scenario.columns_answer
                  Scenario.keys_answer Scenario.fresh).2 eq_refl _)).
  by_evaluation.
Defined.

(** A transport that answers with an error, and one that throws. *)
Lemma transport_failure_witness :
  (query Sample.table_builder Scenario.failing_transport Sample.catalog Sample.one_table
     None Sample.world0).1
  = Normal (JArr [Scenario.refused])
  /\ (mutate Sample.mutation_builder Scenario.throwing_transport Sample.catalog
        Sample.insert_user Sample.world0).1
     = Throw Scenario.refused.
Proof.
  split.
  - destruct (transport_failure Sample.table_builder Sample.mutation_builder
                Scenario.failing_transport Sample.catalog Sample.one_table None
                Sample.world0) as [Hquery _].
    destruct (Hquery _ _ eq_refl) as [Herr _].
    exact (f_equal fst (Herr Scenario.refused JUndefined eq_refl eq_refl)).
  - destruct (transport_failure Sample.table_builder Sample.mutation_builder
                Scenario.throwing_transport Sample.catalog Sample.insert_user None
                Sample.world0) as [_ Hmutate].
    destruct (Hmutate _ _ _ eq_refl) as [_ Hthrow].
    exact (f_equal fst (Hthrow Scenario.refused eq_refl)).
Defined.


Lemma mutate_first_failure_witness :
  mutate Sample.mutation_builder (Sample.transport Sample.insert_response) Sample.catalog
    Scenario.insert_then_ghost Sample.world0
  = (Normal (JArr [JTypeError]), Sample.world0).
Proof.
  destruct (mutate_first_failure Sample.mutation_builder
              (Sample.transport Sample.insert_response) Sample.catalog
              Scenario.insert_then_ghost Sample.world0
              ["user"] "ghost" []
              [[Sample.action_build "user" "insert" (JObj [("objects", JArr [])])]]
              eq_refl) as [_ Hunknown]; [known_builds|].
  apply Hunknown. by_evaluation.
Defined.

(** [flatOne: null] with one table: the response is not flattened. *)
Lemma query_not_flattened_witness :
  (query Sample.table_builder (Sample.transport Sample.users_response) Sample.catalog
     Sample.one_table Scenario.flatOne_null Sample.world0).1
  = Normal (JArr [JNull; Sample.users_response]).
Proof.
  destruct (query_not_flattened Sample.table_builder
              (Sample.transport Sample.users_response) Sample.catalog Sample.one_table
              Scenario.flatOne_null Sample.world0 _ _ JNull Sample.users_response
              eq_refl eq_refl eq_refl) as [Hfalsy _].
  refine (f_equal fst (Hfalsy [("flatOne", JNull)] JNull eq_refl eq_refl _ eq_refl)).
  discriminate.
Defined.

(** A [null] response with one table. *)
Lemma query_flattened_read_witness :
  (query Sample.table_builder (Sample.transport JNull) Sample.catalog Sample.one_table
     None Sample.world0).1
  = Throw JTypeError.
Proof.
  destruct (query_flattened_read Sample.table_builder (Sample.transport JNull)
              Sample.catalog Sample.one_table None Sample.world0 _ _ JNull JNull "users"
              eq_refl eq_refl eq_refl eq_refl eq_refl) as [Hnull _].
  refine (f_equal fst (Hnull _)). by right.
Defined.

(** A build without flat setting. *)
Lemma mutate_remap_failure_witness :
  (mutate Scenario.bare_builder (Sample.transport Sample.insert_response) Sample.catalog
     Sample.insert_user Sample.world0).1
  = Throw JTypeError.
Proof.
  destruct (mutate_remap_failure Scenario.bare_builder
              (Sample.transport Sample.insert_response) Sample.catalog Sample.insert_user
              Sample.world0 _ _ _ JNull Sample.insert_response [] [] [] []
              eq_refl eq_refl eq_refl eq_refl ltac:(constructor)) as [Hempty _].
  exact (f_equal fst (Hempty eq_refl)).
Defined.

Lemma walk_nested_witness :
  walk (JObj Scenario.nested_response) "insert_user.returning"
  = Normal (JArr [JObj [("id", JNum 1)]]).
Proof. apply walk_nested. reflexivity. Defined.

(** A query and a mutation without any table. *)
Lemma empty_request_witness :
  (query Sample.table_builder (Sample.transport Sample.users_response) Sample.catalog []
     None Sample.world0).1
  = Normal (JArr [JNull; Sample.users_response])
  /\ (mutate Sample.mutation_builder (Sample.transport Sample.users_response)
        Sample.catalog [] Sample.world0).1
     = Normal (JArr [JNull; JObj []]).
Proof.
  destruct (empty_request Sample.table_builder Sample.mutation_builder
              (Sample.transport Sample.users_response) Sample.catalog Sample.world0)
    as (_ & _ & Hquery & Hmutate).
  split.
  - exact (f_equal fst (Hquery None _ _ Sample.users_response eq_refl eq_refl)).
  - exact (f_equal fst (Hmutate _ _ _ Sample.users_response eq_refl eq_refl)).
Defined.


(** The request of a query whose only table has no row in the response. *)
Lemma requests_sent_witness :
  length (gql_calls (query Sample.table_builder (Sample.transport JNull) Sample.catalog
                       Sample.one_table None Sample.world0).2)
  = 1.
Proof.
  destruct (requests_sent Sample.table_builder Sample.mutation_builder
              (Sample.transport JNull) Sample.live_transport Sample.catalog
              Sample.one_table (JFun 1) None Sample.world0) as [Hquery _].
  rewrite Hquery. reflexivity.
Defined.
